(** * marketing-helper: path construction, aggregation and scoring

    A shallow embedding of the pure core of [server.js]: the contribution
    score ([computeMarketingContribution]), the closed-won stage lookup
    ([getClosedWonStageIds]), the conversion path builder
    ([buildConversionPath], [pathToKey]), the path aggregation of
    [/api/mcf/refresh] and its threshold filter.  Around that core:
    [escapeHtml], the retry loop [hubspotApiWithRetry], the conversion
    locator [getConversionTimestamp], the marketing-source configuration,
    the counters and the gate of the contribution job, the loop of the MCF
    job, and the full-journey copy of [buildConversionPath] kept in
    [test-mcf.js].  Requests to the CRM are not performed: what a request
    returns, or that it throws, is an input of the function that makes it.

    Conventions of the embedding.
    - JavaScript numbers that hold counts and epoch-millisecond timestamps
      are integers far below 2^53, where double arithmetic is exact; they
      are [nat] and [Z].  Numbers that go through division, [Math.ceil] or
      a running sum of monetary amounts are IEEE binary64 values and are
      modelled by Rocq's primitive [float], which is the same format.
    - Strings are [string]; [trim] and [toUpperCase] are modelled on the
      ASCII range, which covers the channel codes of the CRM.
    - A property that is [undefined], [null] or missing is [None]. *)

From Stdlib Require Import ZArith List String Ascii Bool Lia Permutation.
From Stdlib Require Import Floats.
From Stdlib Require Import Sorted.
Import ListNotations.

Local Open Scope string_scope.
Local Open Scope list_scope.
Local Open Scope Z_scope.

(* ================================================================= *)
(** ** JavaScript primitives used by the core *)

Module JS.

(** White space removed by [String.prototype.trim] (ASCII range):
    TAB, LF, VT, FF, CR and SPACE. *)
Definition isWhiteSpace (c : ascii) : bool :=
  let n := nat_of_ascii c in
  ((9 <=? n)%nat && (n <=? 13)%nat) || (n =? 32)%nat.

Fixpoint trimStart (s : string) : string :=
  match s with
  | EmptyString => EmptyString
  | String c s' => if isWhiteSpace c then trimStart s' else s
  end.

Fixpoint trimEnd (s : string) : string :=
  match s with
  | EmptyString => EmptyString
  | String c s' =>
      match trimEnd s' with
      | EmptyString => if isWhiteSpace c then EmptyString else String c EmptyString
      | r => String c r
      end
  end.

(** [s.trim()] *)
Definition trim (s : string) : string := trimEnd (trimStart s).

Definition upperChar (c : ascii) : ascii :=
  let n := nat_of_ascii c in
  if ((97 <=? n)%nat && (n <=? 122)%nat)%bool then ascii_of_nat (n - 32) else c.

(** [s.toUpperCase()] *)
Fixpoint toUpperCase (s : string) : string :=
  match s with
  | EmptyString => EmptyString
  | String c s' => String (upperChar c) (toUpperCase s')
  end.

(** [arr.join(sep)] on an array of strings. *)
Fixpoint join (sep : string) (arr : list string) : string :=
  match arr with
  | [] => EmptyString
  | [x] => x
  | x :: rest => (x ++ sep ++ join sep rest)%string
  end.

(** A string is truthy iff it is not empty ([filter(Boolean)], [!s]). *)
Definition truthy (s : string) : bool := negb (s =? EmptyString)%string.

(** [arr.sort(compare)]: the sort is stable; [gt a b] stands for
    [compare(a, b) > 0].  An element is inserted in front of the first
    element it is not greater than, so equal elements keep their order. *)
Fixpoint insertSorted {A : Type} (gt : A -> A -> bool) (x : A) (l : list A) : list A :=
  match l with
  | [] => [x]
  | y :: l' => if gt x y then y :: insertSorted gt x l' else x :: l
  end.

Definition sort {A : Type} (gt : A -> A -> bool) (l : list A) : list A :=
  fold_right (insertSorted gt) [] l.

(** A [Set] of strings keeps its elements in insertion order. *)
Definition has (s : list string) (x : string) : bool := existsb (String.eqb x) s.

Definition add (s : list string) (x : string) : list string :=
  if has s x then s else s ++ [x].

(** The number a count denotes. *)
Definition ofNat (n : nat) : float := PrimFloat.of_uint63 (Uint63.of_Z (Z.of_nat n)).

(** The number an integer denotes. *)
Definition ofZ (z : Z) : float :=
  if z <? 0 then PrimFloat.opp (PrimFloat.of_uint63 (Uint63.of_Z (- z)))
  else PrimFloat.of_uint63 (Uint63.of_Z z).

Definition isNaN (x : float) : bool := negb (PrimFloat.eqb x x).

(** [Math.ceil(x)]: a finite number with a non-negative binary exponent is
    already an integer; otherwise the mantissa is divided exactly.  A zero
    result is returned as [+0] (JavaScript keeps the sign), which no
    comparison below distinguishes. *)
Definition Math_ceil (x : float) : float :=
  match Prim2SF x with
  | S754_finite s m e =>
      if 0 <=? e then x
      else
        let a := if s then Z.neg m else Z.pos m in
        ofZ (- ((- a) / 2 ^ (- e)))
  | _ => x
  end.

(** [Math.round(x)]: the nearest integer, ties towards plus infinity. *)
Definition Math_round (x : float) : float :=
  match Prim2SF x with
  | S754_finite s m e =>
      if 0 <=? e then x
      else
        let a := if s then Z.neg m else Z.pos m in
        ofZ ((2 * a + 2 ^ (- e)) / 2 ^ (- e + 1))
  | _ => x
  end.

(** [Math.max(a, b)] *)
Definition Math_max (a b : float) : float :=
  if (isNaN a || isNaN b)%bool then PrimFloat.nan
  else if PrimFloat.ltb a b then b else a.

(** [x || 0] on a number: zero and NaN are falsy. *)
Definition orZero (x : float) : float :=
  if (PrimFloat.eqb x 0%float || isNaN x)%bool then 0%float else x.

End JS.

(* ================================================================= *)
(** ** History entries *)

(** One entry of a property history, [{ timestamp, value }]. *)
Record HistoryEntry : Type := mkEntry {
  timestamp : option Z;
  value : option string
}.

(** An entry with both fields present, as the unit tests write them. *)
Definition entry (ts : Z) (v : string) : HistoryEntry := mkEntry (Some ts) (Some v).

(** [Number(e.timestamp || 0)] *)
Definition tsNumber (e : HistoryEntry) : Z :=
  match timestamp e with
  | Some t => t
  | None => 0
  end.

(** The comparator [(a, b) => Number(a.timestamp || 0) - Number(b.timestamp || 0)]
    is positive exactly when [b] is strictly earlier than [a]. *)
Definition laterThan (a b : HistoryEntry) : bool := tsNumber b <? tsNumber a.

Definition sortByTimestamp (l : list HistoryEntry) : list HistoryEntry :=
  JS.sort laterThan l.

(* ================================================================= *)
(** ** computeMarketingContribution *)

Record Contribution : Type := mkContribution {
  percent : float;
  totalChanges : nat;
  marketingChanges : nat
}.

(** Default marketing sources (used if a portal has not configured its own). *)
Definition DEFAULT_MARKETING_SOURCES : list string :=
  [ "ORGANIC_SEARCH"; "PAID_SEARCH"; "EMAIL_MARKETING"; "SOCIAL_MEDIA";
    "REFERRALS"; "OTHER_CAMPAIGNS"; "PAID_SOCIAL"; "DISPLAY_ADS" ].

(** [String(entries[i]?.value ?? EMPTY).trim()], [EMPTY] the empty string *)
Definition newValue (e : HistoryEntry) : string :=
  JS.trim (match value e with Some v => v | None => EmptyString end).

(** One iteration of the counting loop on the pair
    [(totalChanges, marketingChanges)]. *)
Definition countEntry (marketingSources : list string)
    (acc : nat * nat) (e : HistoryEntry) : nat * nat :=
  let v := newValue e in
  if JS.truthy v then
    (S (fst acc), if JS.has marketingSources v then S (snd acc) else snd acc)
  else acc.

Definition computeMarketingContribution
    (historyEntries : list HistoryEntry) (marketingSources : list string)
    : Contribution :=
  let entries := sortByTimestamp historyEntries in
  match entries with
  | [] => mkContribution 0%float 0 0
  | _ =>
      let counts := fold_left (countEntry marketingSources) entries (0%nat, 0%nat) in
      let percent :=
        if (0 <? fst counts)%nat
        then PrimFloat.div (JS.ofNat (snd counts)) (JS.ofNat (fst counts))
        else 0%float in
      mkContribution percent (fst counts) (snd counts)
  end.

(* ================================================================= *)
(** ** getClosedWonStageIds *)

(** [stage.metadata]; [probability] is the number [parseFloat] reads from
    the metadata string, [None] when the field is missing or empty (the
    code then parses ["0"]). *)
Record StageMetadata : Type := mkMeta {
  isClosed : option string;
  probability : option float
}.

Record Stage : Type := mkStage {
  id : string;
  metadata : option StageMetadata
}.

Record DealPipeline : Type := mkPipeline {
  stages : option (list Stage)
}.

(** The body of [GET /crm/v3/pipelines/deals]. *)
Record PipelinesResponse : Type := mkResponse {
  results : option (list DealPipeline)
}.

Record CacheEntry : Type := mkCacheEntry {
  stageIds : list string;
  fetchedAt : Z
}.

(** [pipelineCache]: portal id to cache entry. *)
Definition PipelineCache : Type := list (string * CacheEntry).

Fixpoint cacheGet (cache : PipelineCache) (key : string) : option CacheEntry :=
  match cache with
  | [] => None
  | (k, v) :: rest => if (k =? key)%string then Some v else cacheGet rest key
  end.

Definition cacheSet (cache : PipelineCache) (key : string) (v : CacheEntry)
    : PipelineCache :=
  (key, v) :: filter (fun kv => negb (fst kv =? key)%string) cache.

(** [parseFloat(meta.probability || "0")] *)
Definition parsedProbability (meta : StageMetadata) : float :=
  match probability meta with
  | Some p => p
  | None => 0%float
  end.

(** The test of the inner loop, on [meta = stage.metadata || {}]. *)
Definition closedWonTest (st : Stage) : bool :=
  match metadata st with
  | None => false
  | Some meta =>
      match isClosed meta with
      | Some c => (c =? "true")%string && PrimFloat.leb 1%float (parsedProbability meta)
      | None => false
      end
  end.

Definition addStage (ids : list string) (st : Stage) : list string :=
  if closedWonTest st then JS.add ids (id st) else ids.

(** [pipeline.stages || []] *)
Definition stagesOf (p : DealPipeline) : list Stage :=
  match stages p with Some l => l | None => [] end.

(** [data.results || []] *)
Definition pipelinesOf (data : PipelinesResponse) : list DealPipeline :=
  match results data with Some l => l | None => [] end.

Definition addPipeline (ids : list string) (p : DealPipeline) : list string :=
  fold_left addStage (stagesOf p) ids.

(** The two nested loops over [data.results] and [pipeline.stages]. *)
Definition collectStageIds (data : PipelinesResponse) : list string :=
  fold_left addPipeline (pipelinesOf data) [].

(** [getClosedWonStageIds(portalId)] with the cache threaded through.
    [now] and [now'] are the two readings of [Date.now()], [response] is
    what the request yields ([None] when it throws).  Returns the stage
    ids and the cache afterwards. *)
Definition getClosedWonStageIds (cache : PipelineCache) (now now' : Z)
    (key : string) (response : option PipelinesResponse)
    : list string * PipelineCache :=
  let fetch :=
    match response with
    | Some data =>
        let ids := collectStageIds data in
        (ids, cacheSet cache key (mkCacheEntry ids now'))
    | None => ([], cache)
    end in
  match cacheGet cache key with
  | Some entry =>
      if now - fetchedAt entry <? 3600000 then (stageIds entry, cache) else fetch
  | None => fetch
  end.

(* ================================================================= *)
(** ** buildConversionPath and pathToKey *)

Definition MCF_LOOKBACK_DAYS : Z := 90.

(** [(lookbackDays || MCF_LOOKBACK_DAYS) * 24 * 60 * 60 * 1000];
    [None] is an argument that was not passed. *)
Definition lookbackMs (lookbackDays : option Z) : Z :=
  (match lookbackDays with
   | Some d => if d =? 0 then MCF_LOOKBACK_DAYS else d
   | None => MCF_LOOKBACK_DAYS
   end) * 24 * 60 * 60 * 1000.

Definition windowStart (conversionTimestamp : Z) (lookbackDays : option Z) : Z :=
  conversionTimestamp - lookbackMs lookbackDays.

(** The predicate of the first [filter]. *)
Definition inWindow (conversionTimestamp : Z) (lookbackDays : option Z)
    (e : HistoryEntry) : bool :=
  let ts := tsNumber e in
  (windowStart conversionTimestamp lookbackDays <=? ts) && (ts <=? conversionTimestamp).

(** [entries]: the history filtered to the window and sorted by time. *)
Definition windowEntries (sourceHistory : list HistoryEntry)
    (conversionTimestamp : Z) (lookbackDays : option Z) : list HistoryEntry :=
  sortByTimestamp (filter (inWindow conversionTimestamp lookbackDays) sourceHistory).

(** [String(e.value || EMPTY).trim().toUpperCase()], [EMPTY] the empty string *)
Definition stepOf (e : HistoryEntry) : string :=
  JS.toUpperCase (JS.trim (match value e with Some v => v | None => EmptyString end)).

(** [rawPath]: the steps of the entries, empty ones dropped. *)
Definition rawPath (entries : list HistoryEntry) : list string :=
  filter JS.truthy (map stepOf entries).

(** The body of the collapsing loop: push [step] unless it equals the last
    element pushed. *)
Definition collapseStep (collapsed : list string) (step : string) : list string :=
  match rev collapsed with
  | [] => collapsed ++ [step]
  | lastStep :: _ => if (lastStep =? step)%string then collapsed else collapsed ++ [step]
  end.

Definition collapse (steps : list string) : list string :=
  fold_left collapseStep steps [].

Definition UNKNOWN : list string := ["UNKNOWN"].

(** [buildConversionPath(sourceHistory, conversionTimestamp, lookbackDays)];
    a [null] history is the empty list. *)
Definition buildConversionPath (sourceHistory : list HistoryEntry)
    (conversionTimestamp : Z) (lookbackDays : option Z) : list string :=
  match windowEntries sourceHistory conversionTimestamp lookbackDays with
  | [] => UNKNOWN
  | entries =>
      match collapse (rawPath entries) with
      | [] => UNKNOWN
      | collapsed => collapsed
      end
  end.

(** The entries whose value puts a step into [rawPath]. *)
Definition contributingEntries (sourceHistory : list HistoryEntry)
    (conversionTimestamp : Z) (lookbackDays : option Z) : list HistoryEntry :=
  filter (fun e => JS.truthy (stepOf e))
         (windowEntries sourceHistory conversionTimestamp lookbackDays).

(** [pathToKey(pathArray)] *)
Definition pathToKey (pathArray : list string) : string := JS.join ">" pathArray.

(* ================================================================= *)
(** ** Path aggregation of [/api/mcf/refresh] *)

(** What one converting contact feeds into the aggregation: the path built
    for it and the [value] and [currency] of its conversion. *)
Record Conversion : Type := mkConversion {
  convPath : list string;
  convValue : float;
  convCurrency : option string
}.

(** A value of [pathCounts]. *)
Record PathRow : Type := mkRow {
  path : list string;
  conversions : nat;
  totalValue : float;
  currencies : list string
}.

(** [pathCounts]: an object, its keys in insertion order. *)
Definition PathCounts : Type := list (string * PathRow).

Fixpoint pcGet (pc : PathCounts) (key : string) : option PathRow :=
  match pc with
  | [] => None
  | (k, r) :: rest => if (k =? key)%string then Some r else pcGet rest key
  end.

Fixpoint pcUpdate (key : string) (f : PathRow -> PathRow) (pc : PathCounts)
    : PathCounts :=
  match pc with
  | [] => []
  | (k, r) :: rest =>
      if (k =? key)%string then (k, f r) :: rest
      else (k, r) :: pcUpdate key f rest
  end.

(** The three updates of [pathCounts[key]] for one conversion. *)
Definition bump (c : Conversion) (r : PathRow) : PathRow :=
  mkRow (path r)
        (S (conversions r))
        (PrimFloat.add (totalValue r) (JS.orZero (convValue c)))
        (match convCurrency c with
         | Some cur => if JS.truthy cur then JS.add (currencies r) cur else currencies r
         | None => currencies r
         end).

(** One iteration of the contact loop, from [pathToKey] on. *)
Definition accumulate (pathCounts : PathCounts) (c : Conversion) : PathCounts :=
  let key := pathToKey (convPath c) in
  let withRow :=
    match pcGet pathCounts key with
    | Some _ => pathCounts
    | None => pathCounts ++ [(key, mkRow (convPath c) 0 0%float [])]
    end in
  pcUpdate key (bump c) withRow.

Definition aggregate (cs : list Conversion) : PathCounts :=
  fold_left accumulate cs [].

(** Per-key readings of the table; a key without a row reads as zero. *)
Definition conversionsOf (key : string) (pc : PathCounts) : nat :=
  match pcGet pc key with Some r => conversions r | None => 0%nat end.

Definition totalValueOf (key : string) (pc : PathCounts) : float :=
  match pcGet pc key with Some r => totalValue r | None => 0%float end.

Definition currenciesOf (key : string) (pc : PathCounts) : list string :=
  match pcGet pc key with Some r => currencies r | None => [] end.

(** The conversion's path has the key [key]. *)
Definition hasKey (key : string) (c : Conversion) : bool :=
  (pathToKey (convPath c) =? key)%string.

(** The amounts added to the row of [key], in processing order. *)
Definition valuesFor (key : string) (cs : list Conversion) : list float :=
  map (fun c => JS.orZero (convValue c)) (filter (hasKey key) cs).

(* ================================================================= *)
(** ** Threshold filter and ranking *)

(** [Math.max(1, Math.ceil(totalConversions * (thresholdPct / 100)))] *)
Definition threshNum (totalConversions : nat) (thresholdPct : float) : float :=
  JS.Math_max 1%float
    (JS.Math_ceil
       (PrimFloat.mul (JS.ofNat totalConversions)
                      (PrimFloat.div thresholdPct 100%float))).

(** [p.conversions >= threshNum] *)
Definition qualifies (thresh : float) (p : PathRow) : bool :=
  PrimFloat.leb thresh (JS.ofNat (conversions p)).

(** [b.conversions - a.conversions || b.totalValue - a.totalValue] is
    positive. *)
Definition rankedAfter (a b : PathRow) : bool :=
  if (conversions b =? conversions a)%nat
  then PrimFloat.ltb 0%float (PrimFloat.sub (totalValue b) (totalValue a))
  else (conversions a <? conversions b)%nat.

Record PathSummary : Type := mkSummary {
  summaryPath : list string;
  pathKey : string;
  summaryConversions : nat;
  conversionValue : float;
  summaryCurrencies : list string
}.

Definition toSummary (p : PathRow) : PathSummary :=
  mkSummary (path p)
            (pathToKey (path p))
            (conversions p)
            (PrimFloat.div (JS.Math_round (PrimFloat.mul (totalValue p) 100%float)) 100%float)
            (currencies p).

(** [topPaths]: [Object.values(pathCounts)] filtered, sorted and mapped. *)
Definition topPaths (pathCounts : PathCounts) (totalConversions : nat)
    (thresholdPct : float) : list PathSummary :=
  map toSummary
      (JS.sort rankedAfter
         (filter (qualifies (threshNum totalConversions thresholdPct))
                 (map snd pathCounts))).

(** The cutoff as the specification words it, for a whole-number
    percentage: [max(1, ceil(totalConversions * thresholdPct / 100))] over
    the integers. *)
Definition specThresholdCount (totalConversions thresholdPct : Z) : Z :=
  Z.max 1 (- ((- (totalConversions * thresholdPct)) / 100)).

(* ================================================================= *)
(** ** Notions used to state the properties *)

(** No two neighbours of the list are equal. *)
Inductive NoAdjacentEqual : list string -> Prop :=
| NoAdjacent_nil : NoAdjacentEqual []
| NoAdjacent_one : forall x, NoAdjacentEqual [x]
| NoAdjacent_cons : forall x y l,
    x <> y -> NoAdjacentEqual (y :: l) -> NoAdjacentEqual (x :: y :: l).

(** The collapsing loop read from the front of the list: a step that is
    followed by an equal one is dropped. *)
Fixpoint dedupAdjacent (steps : list string) : list string :=
  match steps with
  | [] => []
  | x :: rest =>
      match rest with
      | [] => [x]
      | y :: _ => if (x =? y)%string then dedupAdjacent rest else x :: dedupAdjacent rest
      end
  end.

(** The token holds no [>], the separator of [pathToKey]. *)
Fixpoint noSeparator (s : string) : bool :=
  match s with
  | EmptyString => true
  | String c s' => negb (Ascii.eqb c ">"%char) && noSeparator s'
  end.

(** An entry counts towards the denominator: its trimmed value is not
    empty. *)
Definition countsInTotal (e : HistoryEntry) : bool := JS.truthy (newValue e).

(** An entry counts towards the numerator: it counts in the total and its
    trimmed value, as it stands, is in the marketing set. *)
Definition countsAsMarketing (marketingSources : list string) (e : HistoryEntry) : bool :=
  JS.truthy (newValue e) && JS.has marketingSources (newValue e).

(** The result for given counts. *)
Definition contributionOf (total marketing : nat) : Contribution :=
  mkContribution
    (if (0 <? total)%nat
     then PrimFloat.div (JS.ofNat marketing) (JS.ofNat total)
     else 0%float)
    total marketing.

(** Number of entries that satisfy [f]. *)
Definition countIf {A : Type} (f : A -> bool) (l : list A) : nat :=
  List.length (filter f l).

(* ================================================================= *)
(** ** escapeHtml *)

(** [s.replaceAll(c, replacement)] for a one-character pattern [c]; the
    replacements used below hold no [$], so they are inserted literally. *)
Fixpoint replaceAll (c : ascii) (replacement : string) (s : string) : string :=
  match s with
  | EmptyString => EmptyString
  | String a s' =>
      if Ascii.eqb a c then (replacement ++ replaceAll c replacement s')%string
      else String a (replaceAll c replacement s')
  end.

(** [escapeHtml(str)] on a string. *)
Definition escapeHtml (str : string) : string :=
  replaceAll ">"%char "&gt;"
    (replaceAll "<"%char "&lt;"
       (replaceAll "&"%char "&amp;" str)).

(** The character occurs in the string. *)
Fixpoint occurs (c : ascii) (s : string) : bool :=
  match s with
  | EmptyString => false
  | String a s' => Ascii.eqb a c || occurs c s'
  end.

(** What [escapeHtml] makes of one character. *)
Definition escapeChar (a : ascii) : string :=
  if Ascii.eqb a "&"%char then "&amp;"
  else if Ascii.eqb a "<"%char then "&lt;"
  else if Ascii.eqb a ">"%char then "&gt;"
  else String a EmptyString.

Fixpoint escapeEach (s : string) : string :=
  match s with
  | EmptyString => EmptyString
  | String a s' => (escapeChar a ++ escapeEach s')%string
  end.

(* ================================================================= *)
(** ** hubspotApiWithRetry *)

(** What one request does: it returns the parsed body or throws an error
    whose [status] is the HTTP status ([None] when the error has none). *)
Inductive ApiOutcome (A : Type) : Type :=
| ApiOk (data : A)
| ApiError (status : option Z).

Arguments ApiOk {A} data.
Arguments ApiError {A} status.

(** A run of [hubspotApiWithRetry]: how it ended, how many requests it
    made and the pauses it took, in milliseconds. *)
Record RetryRun (A : Type) : Type := mkRetryRun {
  retryOutcome : ApiOutcome A;
  retryCalls : nat;
  retryWaits : list Z
}.

Arguments mkRetryRun {A} _ _ _.
Arguments retryOutcome {A} _.
Arguments retryCalls {A} _.
Arguments retryWaits {A} _.

Definition isRateLimit (status : option Z) : bool :=
  match status with
  | Some st => st =? 429
  | None => false
  end.

(** The loop [for (attempt = 0; attempt <= maxRetries; attempt++)], read
    from iteration [attempt] with [remaining = maxRetries - attempt]
    iterations after it; [request k] is what the request of iteration [k]
    does. *)
Fixpoint retryLoop {A : Type} (request : nat -> ApiOutcome A)
    (attempt remaining : nat) (waits : list Z) : RetryRun A :=
  match request attempt with
  | ApiOk data => mkRetryRun (ApiOk data) (S attempt) waits
  | ApiError status =>
      match remaining with
      | S remaining' =>
          if isRateLimit status
          then retryLoop request (S attempt) remaining'
                         (waits ++ [2 ^ (Z.of_nat attempt + 1) * 1000])
          else mkRetryRun (ApiError status) (S attempt) waits
      | O => mkRetryRun (ApiError status) (S attempt) waits
      end
  end.

(** [hubspotApiWithRetry(portalId, url, options, maxRetries)] *)
Definition hubspotApiWithRetry {A : Type} (request : nat -> ApiOutcome A)
    (maxRetries : nat) : RetryRun A :=
  retryLoop request 0 maxRetries [].

Fixpoint sumZ (l : list Z) : Z :=
  match l with
  | [] => 0
  | x :: l' => x + sumZ l'
  end.

(* ================================================================= *)
(** ** getConversionTimestamp *)

(** A string-valued property of a CRM object as JSON delivers it. *)
Inductive JsString : Type :=
| JsUndefined
| JsNull
| JsStr (s : string).

Definition jsTruthy (v : JsString) : bool :=
  match v with
  | JsStr s => JS.truthy s
  | _ => false
  end.

(** [a || b] *)
Definition jsOr (a b : JsString) : JsString := if jsTruthy a then a else b.

(** The result of [getConversionTimestamp]; [crApproximate] is false where
    the code leaves the field out. *)
Record ConversionResult : Type := mkConversionResult {
  crTimestamp : Z;
  crValue : float;
  crCurrency : option string;
  crApproximate : bool
}.

(** A meeting as fetched: two of its properties and [createdAt]. *)
Record Meeting : Type := mkMeeting {
  hs_meeting_start_time : JsString;
  hs_timestamp : JsString;
  meetingCreatedAt : JsString
}.

(** A deal as fetched: [createdAt], its properties and the history of
    [dealstage]. *)
Record Deal : Type := mkDeal {
  dealCreatedAt : JsString;
  createdate : JsString;
  amount : JsString;
  deal_currency_code : JsString;
  closedate : JsString;
  dealstage : option string;
  dealstageHistory : option (list HistoryEntry)
}.

(** What the requests about one contact yield: the contact's
    [hs_first_conversion_date], and for meetings and deals the association
    list with the fetch of each associated object in order ([None] where a
    request throws). *)
Record ContactData : Type := mkContactData {
  hs_first_conversion_date : JsString;
  meetingAssociations : option (list (option Meeting));
  dealAssociations : option (list (option Deal))
}.

(** [ts < earliest] where [None] is [Infinity]. *)
Definition earlierThan (ts : Z) (earliest : option Z) : bool :=
  match earliest with
  | Some e => ts <? e
  | None => true
  end.

Section ConversionLocator.

(** [new Date(s).getTime()] for a string, [None] when it is NaN. *)
Variable parseDate : string -> option Z.

(** [parseFloat(s)] *)
Variable parseFloat : string -> float.

(** [new Date(raw).getTime()]: [undefined] is an invalid date and [null]
    is the epoch. *)
Definition dateOf (raw : JsString) : option Z :=
  match raw with
  | JsUndefined => None
  | JsNull => Some 0
  | JsStr s => parseDate s
  end.

(** case [form_submission] *)
Definition formSubmission (dateStr : JsString) : option ConversionResult :=
  if jsTruthy dateStr then
    match dateOf dateStr with
    | Some ts => Some (mkConversionResult ts 0%float None false)
    | None => None
    end
  else None.

(** [hs_meeting_start_time || hs_timestamp || createdAt], as a date. *)
Definition meetingDate (m : Meeting) : option Z :=
  dateOf (jsOr (jsOr (hs_meeting_start_time m) (hs_timestamp m)) (meetingCreatedAt m)).

(** One iteration of the meeting loop on [earliestTs]. *)
Definition meetingStep (earliestTs : option Z) (fetched : option Meeting) : option Z :=
  match fetched with
  | None => earliestTs
  | Some m =>
      match meetingDate m with
      | Some ts => if earlierThan ts earliestTs then Some ts else earliestTs
      | None => earliestTs
      end
  end.

(** case [meeting_booked] *)
Definition meetingBooked (assoc : option (list (option Meeting)))
    : option ConversionResult :=
  match assoc with
  | None => None
  | Some [] => None
  | Some meetings =>
      match fold_left meetingStep meetings None with
      | Some ts => Some (mkConversionResult ts 0%float None false)
      | None => None
      end
  end.

(** [new Date(deal.createdAt || deal.properties?.createdate).getTime()] *)
Definition dealDate (d : Deal) : option Z :=
  dateOf (jsOr (dealCreatedAt d) (createdate d)).

(** [parseFloat(deal.properties?.amount || "0") || 0] *)
Definition dealValue (d : Deal) : float :=
  JS.orZero (parseFloat (match jsOr (amount d) (JsStr "0") with
                         | JsStr s => s
                         | _ => "0"
                         end)).

(** [deal.properties?.deal_currency_code || null] *)
Definition dealCurrency (d : Deal) : option string :=
  match deal_currency_code d with
  | JsStr s => if JS.truthy s then Some s else None
  | _ => None
  end.

Definition earliestTimestamp (earliest : option ConversionResult) : option Z :=
  option_map crTimestamp earliest.

(** One iteration of the deal loop of [deal_created] on [earliest]. *)
Definition dealCreatedStep (earliest : option ConversionResult)
    (fetched : option Deal) : option ConversionResult :=
  match fetched with
  | None => earliest
  | Some d =>
      match dealDate d with
      | Some ts =>
          if earlierThan ts (earliestTimestamp earliest)
          then Some (mkConversionResult ts (dealValue d) (dealCurrency d) false)
          else earliest
      | None => earliest
      end
  end.

(** case [deal_created] *)
Definition dealCreated (assoc : option (list (option Deal)))
    : option ConversionResult :=
  match assoc with
  | None => None
  | Some [] => None
  | Some deals => fold_left dealCreatedStep deals None
  end.

(** [closedWonStages.has(entry.value)] *)
Definition entersClosedWon (closedWonStages : list string) (e : HistoryEntry) : bool :=
  match value e with
  | Some v => JS.has closedWonStages v
  | None => false
  end.

(** [closedWonTs] and [approximate] for one deal, before the final test:
    the timestamp of the first closed-won entry of the sorted stage
    history; when that is [null], NaN or 0 and the deal has a [closedate],
    the close date instead.  [None] is [null] or NaN. *)
Definition dealClosedWonTime (closedWonStages : list string) (d : Deal)
    : option Z * bool :=
  let sorted :=
    sortByTimestamp (match dealstageHistory d with Some h => h | None => [] end) in
  let fromHistory :=
    match find (entersClosedWon closedWonStages) sorted with
    | Some e => timestamp e
    | None => None
    end in
  let falsy :=
    match fromHistory with
    | Some ts => ts =? 0
    | None => true
    end in
  if falsy && jsTruthy (closedate d)
  then (dateOf (closedate d), true)
  else (fromHistory, false).

(** [closedWonStages.has(deal.properties?.dealstage)] *)
Definition inClosedWonStage (closedWonStages : list string) (d : Deal) : bool :=
  match dealstage d with
  | Some st => JS.has closedWonStages st
  | None => false
  end.

(** One iteration of the deal loop of [closed_won] on [earliest]. *)
Definition closedWonStep (closedWonStages : list string)
    (earliest : option ConversionResult) (fetched : option Deal)
    : option ConversionResult :=
  match fetched with
  | None => earliest
  | Some d =>
      if inClosedWonStage closedWonStages d then
        match dealClosedWonTime closedWonStages d with
        | (Some ts, approximate) =>
            if negb (ts =? 0) && earlierThan ts (earliestTimestamp earliest)
            then Some (mkConversionResult ts (dealValue d) (dealCurrency d) approximate)
            else earliest
        | (None, _) => earliest
        end
      else earliest
  end.

(** case [closed_won], given the set [getClosedWonStageIds] returned. *)
Definition closedWon (closedWonStages : list string)
    (assoc : option (list (option Deal))) : option ConversionResult :=
  match closedWonStages with
  | [] => None
  | _ =>
      match assoc with
      | None => None
      | Some [] => None
      | Some deals => fold_left (closedWonStep closedWonStages) deals None
      end
  end.

(** [getConversionTimestamp(portalId, contactId, conversionType, contactProps)] *)
Definition getConversionTimestamp (closedWonStages : list string)
    (conversionType : string) (contact : ContactData) : option ConversionResult :=
  if (conversionType =? "form_submission")%string
  then formSubmission (hs_first_conversion_date contact)
  else if (conversionType =? "meeting_booked")%string
  then meetingBooked (meetingAssociations contact)
  else if (conversionType =? "deal_created")%string
  then dealCreated (dealAssociations contact)
  else if (conversionType =? "closed_won")%string
  then closedWon closedWonStages (dealAssociations contact)
  else None.

End ConversionLocator.

(* ================================================================= *)
(** ** Further notions used to state the properties *)

(** The shape the three "keep the earliest" loops share: [key x] is the
    timestamp the item [x] offers, if any, and [build x ts] the record kept
    for it; an item replaces the one kept so far only when it is strictly
    earlier. *)
Section EarliestFold.
Context {X R : Type} (key : X -> option Z) (build : X -> Z -> R) (tsOf : R -> Z).

Definition earliestStep (acc : option R) (x : X) : option R :=
  match key x with
  | Some ts => if earlierThan ts (option_map tsOf acc) then Some (build x ts) else acc
  | None => acc
  end.

End EarliestFold.

(** Entries in non-decreasing order of timestamp. *)
Definition inTimeOrder (l : list HistoryEntry) : Prop :=
  StronglySorted (fun a b => tsNumber a <= tsNumber b) l.

(** The three loops of [getConversionTimestamp] as instances of that
    shape: the timestamp a fetched object offers and the record kept for
    it. *)
Section LocatorKeys.
Variable parseDate : string -> option Z.
Variable parseFloat : string -> float.

Definition meetingKey (fetched : option Meeting) : option Z :=
  match fetched with
  | Some m => meetingDate parseDate m
  | None => None
  end.

Definition dealCreatedKey (fetched : option Deal) : option Z :=
  match fetched with
  | Some d => dealDate parseDate d
  | None => None
  end.

Definition dealCreatedBuild (fetched : option Deal) (ts : Z) : ConversionResult :=
  match fetched with
  | Some d => mkConversionResult ts (dealValue parseFloat d) (dealCurrency d) false
  | None => mkConversionResult ts 0%float None false
  end.

(** The timestamp a deal offers to the [closed_won] loop: the deal is in a
    closed-won stage and its time is a number other than 0. *)
Definition closedWonKey (closedWonStages : list string) (fetched : option Deal)
    : option Z :=
  match fetched with
  | Some d =>
      if inClosedWonStage closedWonStages d then
        match fst (dealClosedWonTime parseDate closedWonStages d) with
        | Some ts => if ts =? 0 then None else Some ts
        | None => None
        end
      else None
  | None => None
  end.

Definition closedWonBuild (closedWonStages : list string) (fetched : option Deal)
    (ts : Z) : ConversionResult :=
  match fetched with
  | Some d =>
      mkConversionResult ts (dealValue parseFloat d) (dealCurrency d)
                         (snd (dealClosedWonTime parseDate closedWonStages d))
  | None => mkConversionResult ts 0%float None false
  end.

End LocatorKeys.

(* ================================================================= *)
(** ** Portal configuration and marketing sources *)

(** All possible [hs_latest_source] values, the [value]s of [ALL_SOURCES]. *)
Definition ALL_SOURCE_VALUES : list string :=
  [ "ORGANIC_SEARCH"; "PAID_SEARCH"; "EMAIL_MARKETING"; "SOCIAL_MEDIA";
    "REFERRALS"; "OTHER_CAMPAIGNS"; "PAID_SOCIAL"; "DISPLAY_ADS";
    "DIRECT_TRAFFIC"; "OFFLINE"; "OTHER" ].

(** The counters of a contribution job. *)
Record JobCounters : Type := mkCounters {
  processed : nat;
  updated : nat;
  failed : nat;
  skippedNoHistory : nat
}.

(** One portal's entry of the configuration file.  [updatedAt] and
    [lastAnalysisRun] are written by [new Date().toISOString()] and only
    ever compared as dates; they are kept as the instant they denote, in
    milliseconds. *)
Record PortalEntry : Type := mkPortalEntry {
  portalMarketingSources : option (list string);
  updatedAt : option Z;
  lastAnalysisRun : option Z;
  lastAnalysisResult : option JobCounters
}.

(** The configuration file: portal id to entry. *)
Definition PortalConfig : Type := list (string * PortalEntry).

Fixpoint configGet (config : PortalConfig) (portalId : string) : option PortalEntry :=
  match config with
  | [] => None
  | (k, v) :: rest => if (k =? portalId)%string then Some v else configGet rest portalId
  end.

Definition configSet (config : PortalConfig) (portalId : string) (v : PortalEntry)
    : PortalConfig :=
  (portalId, v) :: filter (fun kv => negb (fst kv =? portalId)%string) config.

(** [config[String(portalId)] || {}] *)
Definition entryOrEmpty (config : PortalConfig) (portalId : string) : PortalEntry :=
  match configGet config portalId with
  | Some e => e
  | None => mkPortalEntry None None None None
  end.

(** [new Set(array)] *)
Definition setOf (l : list string) : list string := fold_left JS.add l [].

(** [getMarketingSources(portalId)], on the configuration read from file. *)
Definition getMarketingSources (config : PortalConfig) (portalId : string)
    : list string :=
  match portalMarketingSources (entryOrEmpty config portalId) with
  | Some portalSources => setOf portalSources
  | None => setOf DEFAULT_MARKETING_SOURCES
  end.

(** What [POST /api/marketing-sources] answers. *)
Inductive SourcesReply : Type :=
| SourcesNotAnArray
| SourcesInvalid (invalid : list string)
| SourcesSaved (selectedSources : list string).

(** [POST /api/marketing-sources] for a given portal: the reply and the
    configuration afterwards.  [selectedSources] is [None] when the body
    holds no array; [now] is the time of the request. *)
Definition postMarketingSources (config : PortalConfig) (portalId : string)
    (selectedSources : option (list string)) (now : Z) : SourcesReply * PortalConfig :=
  match selectedSources with
  | None => (SourcesNotAnArray, config)
  | Some selected =>
      match filter (fun s => negb (JS.has ALL_SOURCE_VALUES s)) selected with
      | [] =>
          let old := entryOrEmpty config portalId in
          (SourcesSaved selected,
           configSet config portalId
             (mkPortalEntry (Some selected) (Some now)
                            (lastAnalysisRun old) (lastAnalysisResult old)))
      | invalid => (SourcesInvalid invalid, config)
      end
  end.

(* ================================================================= *)
(** ** The contribution job of [/api/calculate-contribution] *)

(** The test that blocks a new analysis:
    [lastAnalysisRun && lastSourcesUpdated && new Date(lastAnalysisRun) > new Date(lastSourcesUpdated)]. *)
Definition analysisBlocked (e : PortalEntry) : bool :=
  match lastAnalysisRun e, updatedAt e with
  | Some run, Some sourcesUpdated => sourcesUpdated <? run
  | _, _ => false
  end.

(** [analysisAllowed] as the status endpoint computes it when no job is
    running. *)
Definition analysisAllowed (e : PortalEntry) : bool :=
  match lastAnalysisRun e, updatedAt e with
  | Some run, Some sourcesUpdated => run <? sourcesUpdated
  | Some _, None => false
  | None, _ => true
  end.

(** What [processContact] meets for one contact: the configuration file
    as it is when the contact is processed, the history the GET returns
    ([None] when it throws) and whether the PATCH goes through. *)
Record ContactCall : Type := mkContactCall {
  configAtCall : PortalConfig;
  fetchedHistory : option (list HistoryEntry);
  patchSucceeds : bool
}.

(** [processContact(portalId, contactId)]: the [totalChanges] of its
    result, [None] when it throws. *)
Definition processContact (portalId : string) (c : ContactCall) : option nat :=
  let marketingSources := getMarketingSources (configAtCall c) portalId in
  match fetchedHistory c with
  | Some history =>
      if patchSucceeds c
      then Some (totalChanges (computeMarketingContribution history marketingSources))
      else None
  | None => None
  end.

(** One iteration of the loop over the contacts of a batch. *)
Definition contactStep (portalId : string) (job : JobCounters) (c : ContactCall)
    : JobCounters :=
  let job' :=
    match processContact portalId c with
    | Some O =>
        mkCounters (processed job) (updated job) (failed job) (S (skippedNoHistory job))
    | Some (S _) =>
        mkCounters (processed job) (S (updated job)) (failed job) (skippedNoHistory job)
    | None =>
        mkCounters (processed job) (updated job) (S (failed job)) (skippedNoHistory job)
    end in
  mkCounters (S (processed job')) (updated job') (failed job') (skippedNoHistory job').

(** The job over all the contacts it pages through, from the counters
    [{ processed: 0, updated: 0, failed: 0, skippedNoHistory: 0 }]. *)
Definition runContributionJob (portalId : string) (contacts : list ContactCall)
    : JobCounters :=
  fold_left (contactStep portalId) contacts (mkCounters 0 0 0 0).

(** The contact is processed without an error and its history holds no
    entry with a non-empty trimmed value. *)
Definition hasNoHistory (c : ContactCall) : bool :=
  match fetchedHistory c with
  | Some history => patchSucceeds c && (countIf countsInTotal history =? 0)%nat
  | None => false
  end.

(** One of the two requests for the contact throws. *)
Definition callFails (c : ContactCall) : bool :=
  match fetchedHistory c with
  | Some _ => negb (patchSucceeds c)
  | None => true
  end.

(* ================================================================= *)
(** ** The job of [/api/mcf/refresh] *)

(** What the job meets for one contact: the result of
    [getConversionTimestamp] ([None] when it is [null] or the call throws)
    and the contact's [hs_latest_source] history. *)
Record McfContact : Type := mkMcfContact {
  mcfConversion : option ConversionResult;
  mcfHistory : list HistoryEntry
}.

(** The variables of the job: [pathCounts], [totalConversions] and
    [mcfJobStatus[jobKey].processed]. *)
Record McfRun : Type := mkMcfRun {
  runPathCounts : PathCounts;
  runTotalConversions : nat;
  runProcessed : nat
}.

(** [convTs < start.getTime() || convTs > end.getTime()] *)
Definition outsideWindow (startTime endTime : Z) (conv : ConversionResult) : bool :=
  (crTimestamp conv <? startTime) || (endTime <? crTimestamp conv).

(** What the contact feeds into the aggregation. *)
Definition conversionOf (c : McfContact) (conv : ConversionResult) : Conversion :=
  mkConversion
    (buildConversionPath (mcfHistory c) (crTimestamp conv) (Some MCF_LOOKBACK_DAYS))
    (crValue conv) (crCurrency conv).

(** One iteration of the loop over the contacts of a page. *)
Definition mcfStep (startTime endTime : Z) (run : McfRun) (c : McfContact) : McfRun :=
  match mcfConversion c with
  | None =>
      mkMcfRun (runPathCounts run) (runTotalConversions run) (S (runProcessed run))
  | Some conv =>
      if outsideWindow startTime endTime conv
      then mkMcfRun (runPathCounts run) (runTotalConversions run) (S (runProcessed run))
      else mkMcfRun (accumulate (runPathCounts run) (conversionOf c conv))
                    (S (runTotalConversions run))
                    (S (runProcessed run))
  end.

Definition runMcf (startTime endTime : Z) (contacts : list McfContact) : McfRun :=
  fold_left (mcfStep startTime endTime) contacts (mkMcfRun [] 0 0).

(** The contact counts as a conversion of the run. *)
Definition converts (startTime endTime : Z) (c : McfContact) : bool :=
  match mcfConversion c with
  | Some conv => negb (outsideWindow startTime endTime conv)
  | None => false
  end.

(** The conversions the run aggregates, in processing order. *)
Fixpoint conversionsFed (startTime endTime : Z) (contacts : list McfContact)
    : list Conversion :=
  match contacts with
  | [] => []
  | c :: rest =>
      match mcfConversion c with
      | Some conv =>
          if outsideWindow startTime endTime conv
          then conversionsFed startTime endTime rest
          else conversionOf c conv :: conversionsFed startTime endTime rest
      | None => conversionsFed startTime endTime rest
      end
  end.

(** Sum of the [conversions] of all rows. *)
Fixpoint sumConversions (pc : PathCounts) : nat :=
  match pc with
  | [] => 0
  | (_, r) :: rest => conversions r + sumConversions rest
  end.

(** The currencies collected from the ranked paths, [allCurrencies]. *)
Definition allCurrencies (top : list PathSummary) : list string :=
  fold_left (fun acc p => fold_left JS.add (summaryCurrencies p) acc) top [].

(* ================================================================= *)
(** ** The full-journey [buildConversionPath] of [test-mcf.js] *)

Module FullJourney.

(** The predicate of the first [filter]: [ts > 0 && ts <= conversionTimestamp]. *)
Definition inJourney (conversionTimestamp : Z) (e : HistoryEntry) : bool :=
  (0 <? tsNumber e) && (tsNumber e <=? conversionTimestamp).

Definition journeyEntries (sourceHistory : list HistoryEntry)
    (conversionTimestamp : Z) : list HistoryEntry :=
  sortByTimestamp (filter (inJourney conversionTimestamp) sourceHistory).

(** [buildConversionPath(sourceHistory, conversionTimestamp)], the copy in
    the second test suite of [test-mcf.js]: no lookback limit, entries
    with a timestamp of 0 or less are dropped. *)
Definition buildConversionPath (sourceHistory : list HistoryEntry)
    (conversionTimestamp : Z) : list string :=
  match journeyEntries sourceHistory conversionTimestamp with
  | [] => UNKNOWN
  | entries =>
      match collapse (rawPath entries) with
      | [] => UNKNOWN
      | collapsed => collapsed
      end
  end.

End FullJourney.

(** Rows in non-increasing order of [conversions]. *)
Definition byConversionsDescending (l : list PathSummary) : Prop :=
  StronglySorted (fun a b => (summaryConversions b <= summaryConversions a)%nat) l.

(** The entry with its value in upper case. *)
Definition upperEntry (e : HistoryEntry) : HistoryEntry :=
  mkEntry (timestamp e) (option_map JS.toUpperCase (value e)).

(** [mixedCurrencies: allCurrencies.size > 1] *)
Definition mixedCurrencies (top : list PathSummary) : bool :=
  (1 <? List.length (allCurrencies top))%nat.

(** What the table promises of a row filed under [key]. *)
Definition rowWellFormed (key : string) (r : PathRow) : Prop :=
  key = pathToKey (path r)
  /\ (1 <= conversions r)%nat
  /\ NoDup (currencies r)
  /\ forall cur, In cur (currencies r) -> cur <> EmptyString.

(** What the job writes to the configuration when it completes:
    [lastAnalysisRun] and [lastAnalysisResult], the rest of the portal's
    entry kept. *)
Definition completeJob (config : PortalConfig) (portalId : string)
    (completedAt : Z) (job : JobCounters) : PortalConfig :=
  let old := entryOrEmpty config portalId in
  configSet config portalId
    (mkPortalEntry (portalMarketingSources old) (updatedAt old)
                   (Some completedAt) (Some job)).

(** The [analysisAllowed] field of the reply of the status endpoint.
    [job] is [jobStatus[portalId]] reduced to its [running] flag, [None]
    when the server holds no job for the portal: a running job answers
    false, a finished one the value computed above, and without a job the
    persisted result is used when there is one, else the answer is true. *)
Definition statusAnalysisAllowed (job : option bool) (e : PortalEntry) : bool :=
  match job with
  | Some true => false
  | Some false => analysisAllowed e
  | None =>
      match lastAnalysisRun e, lastAnalysisResult e with
      | Some _, Some _ => analysisAllowed e
      | _, _ => true
      end
  end.

(** The configuration file as the server writes it: a portal with a last
    analysis run also has the result of that run. *)
Definition runHasResult (e : PortalEntry) : Prop :=
  lastAnalysisRun e <> None -> lastAnalysisResult e <> None.

(* ================================================================= *)
(** * Properties *)

(** ** Sorting *)

Section SortFacts.
Context {A : Type} (gt : A -> A -> bool).

Lemma insertSorted_perm (x : A) (l : list A) :
  Permutation (JS.insertSorted gt x l) (x :: l).
Proof.
  induction l as [|y l IH]; cbn.
  - reflexivity.
  - destruct (gt x y).
    + rewrite IH. apply perm_swap.
    + reflexivity.
Qed.

Lemma sort_perm (l : list A) : Permutation (JS.sort gt l) l.
Proof.
  induction l as [|x l IH]; cbn.
  - reflexivity.
  - rewrite insertSorted_perm. now constructor.
Qed.

Lemma sort_In (l : list A) (x : A) : In x (JS.sort gt l) <-> In x l.
Proof.
  split; apply Permutation_in; [apply sort_perm | symmetry; apply sort_perm].
Qed.

Lemma sort_nil_inv (l : list A) : JS.sort gt l = [] -> l = [].
Proof.
  intros H. apply Permutation_nil. rewrite <- H. apply sort_perm.
Qed.
End SortFacts.

(** ** The collapsing loop *)

Lemma collapseStep_last (acc : list string) (x y : string) :
  collapseStep (acc ++ [x]) y =
  if (x =? y)%string then acc ++ [x] else (acc ++ [x]) ++ [y].
Proof.
  unfold collapseStep. now rewrite rev_unit.
Qed.

Lemma collapse_from (raw : list string) :
  forall acc x,
    fold_left collapseStep raw (acc ++ [x]) = acc ++ dedupAdjacent (x :: raw).
Proof.
  induction raw as [|y raw IH]; intros acc x.
  - reflexivity.
  - cbn [fold_left]. rewrite collapseStep_last.
    change (dedupAdjacent (x :: y :: raw))
      with (if (x =? y)%string then dedupAdjacent (y :: raw)
            else x :: dedupAdjacent (y :: raw)).
    destruct (String.eqb_spec x y) as [->|Hne].
    + apply IH.
    + rewrite IH, <- app_assoc. reflexivity.
Qed.

Lemma collapse_dedup (raw : list string) : collapse raw = dedupAdjacent raw.
Proof.
  destruct raw as [|x raw]; [reflexivity|].
  unfold collapse. cbn [fold_left].
  change (collapseStep [] x) with ([] ++ [x]).
  now rewrite collapse_from.
Qed.

Lemma dedupAdjacent_head (l : list string) :
  forall x, exists t, dedupAdjacent (x :: l) = x :: t.
Proof.
  induction l as [|y l IH]; intros x.
  - now exists [].
  - change (dedupAdjacent (x :: y :: l))
      with (if (x =? y)%string then dedupAdjacent (y :: l)
            else x :: dedupAdjacent (y :: l)).
    destruct (String.eqb_spec x y) as [->|Hne].
    + apply IH.
    + eexists. reflexivity.
Qed.

Lemma dedupAdjacent_ok (l : list string) : NoAdjacentEqual (dedupAdjacent l).
Proof.
  induction l as [|x l IH]; [constructor|].
  destruct l as [|y l]; [constructor|].
  change (dedupAdjacent (x :: y :: l))
    with (if (x =? y)%string then dedupAdjacent (y :: l)
          else x :: dedupAdjacent (y :: l)).
  destruct (String.eqb_spec x y) as [->|Hne]; [exact IH|].
  destruct (dedupAdjacent_head l y) as [t Ht].
  rewrite Ht in *. now constructor.
Qed.

Lemma dedupAdjacent_fixed (l : list string) :
  NoAdjacentEqual l -> dedupAdjacent l = l.
Proof.
  induction 1 as [|x|x y l Hne Hl IH]; try reflexivity.
  change (dedupAdjacent (x :: y :: l))
    with (if (x =? y)%string then dedupAdjacent (y :: l)
          else x :: dedupAdjacent (y :: l)).
  destruct (String.eqb_spec x y) as [->|_]; [contradiction|].
  now rewrite IH.
Qed.

Lemma collapse_ok (l : list string) : NoAdjacentEqual (collapse l).
Proof. rewrite collapse_dedup. apply dedupAdjacent_ok. Qed.

Lemma collapse_idempotent (l : list string) : collapse (collapse l) = collapse l.
Proof.
  rewrite !collapse_dedup. apply dedupAdjacent_fixed, dedupAdjacent_ok.
Qed.

(** [NoAdjacentEqual] read by positions: two tokens at neighbouring
    indices differ. *)
Lemma NoAdjacentEqual_nth (l : list string) :
  NoAdjacentEqual l <->
  forall (i : nat) (a b : string),
    nth_error l i = Some a -> nth_error l (S i) = Some b -> a <> b.
Proof.
  split.
  - induction 1 as [|x|x y l Hne Hl IH]; intros i a b Ha Hb.
    + destruct i; discriminate.
    + destruct i as [|i]; cbn in Hb; [discriminate | destruct i; discriminate].
    + destruct i as [|i].
      * cbn in Ha, Hb. congruence.
      * apply (IH i); assumption.
  - induction l as [|x l IH]; intros H; [constructor|].
    destruct l as [|y l]; [constructor|].
    constructor.
    + apply (H 0%nat); reflexivity.
    + apply IH. intros i a b Ha Hb. apply (H (S i)); assumption.
Qed.

(** ** buildConversionPath *)

Lemma buildConversionPath_cases (S : list HistoryEntry) (t : Z) (lb : option Z) :
  buildConversionPath S t lb = UNKNOWN \/
  buildConversionPath S t lb = collapse (rawPath (windowEntries S t lb)).
Proof.
  unfold buildConversionPath.
  destruct (windowEntries S t lb) as [|e es]; [now left|].
  destruct (collapse (rawPath (e :: es))); [now left | now right].
Qed.

(** C1: the path returned by [buildConversionPath] has no two adjacent
    equal tokens, collapsing it again leaves it unchanged, and collapsing
    is idempotent on every list of steps. *)
Theorem buildConversionPath_collapsed
    (S : list HistoryEntry) (t : Z) (lookbackDays : option Z) (steps : list string) :
  NoAdjacentEqual (buildConversionPath S t lookbackDays)
  /\ collapse (buildConversionPath S t lookbackDays) = buildConversionPath S t lookbackDays
  /\ collapse (collapse steps) = collapse steps.
Proof.
  destruct (buildConversionPath_cases S t lookbackDays) as [-> | ->].
  - repeat split; [constructor | apply collapse_idempotent].
  - repeat split; [apply collapse_ok | apply collapse_idempotent ..].
Qed.

Lemma windowEntries_In (S : list HistoryEntry) (t : Z) (lb : option Z) (e : HistoryEntry) :
  In e (windowEntries S t lb) <->
  In e S /\ windowStart t lb <= tsNumber e <= t.
Proof.
  unfold windowEntries, sortByTimestamp.
  rewrite sort_In, filter_In. unfold inWindow.
  rewrite andb_true_iff, !Z.leb_le. tauto.
Qed.




Lemma truthy_true (s : string) : JS.truthy s = true <-> s <> EmptyString.
Proof.
  unfold JS.truthy. rewrite negb_true_iff.
  destruct (String.eqb_spec s EmptyString); split; congruence.
Qed.

Lemma contributingEntries_In
    (S : list HistoryEntry) (t : Z) (lb : option Z) (e : HistoryEntry) :
  In e (contributingEntries S t lb) <->
  In e S /\ t - lookbackMs lb <= tsNumber e <= t /\ stepOf e <> EmptyString.
Proof.
  unfold contributingEntries.
  rewrite filter_In, windowEntries_In, truthy_true. unfold windowStart. tauto.
Qed.

(** The steps of the raw path are the steps of the contributing entries,
    in the same order. *)
Lemma rawPath_contributing (S : list HistoryEntry) (t : Z) (lb : option Z) :
  rawPath (windowEntries S t lb) = map stepOf (contributingEntries S t lb).
Proof.
  unfold rawPath, contributingEntries.
  induction (windowEntries S t lb) as [|e es IH]; cbn; [reflexivity|].
  destruct (JS.truthy (stepOf e)); cbn; now rewrite IH.
Qed.

Lemma dedupAdjacent_In (l : list string) (x : string) :
  In x (dedupAdjacent l) <-> In x l.
Proof.
  induction l as [|a l IH]; [reflexivity|].
  destruct l as [|b l]; [reflexivity|].
  change (dedupAdjacent (a :: b :: l))
    with (if (a =? b)%string then dedupAdjacent (b :: l)
          else a :: dedupAdjacent (b :: l)).
  destruct (String.eqb_spec a b) as [->|Hne].
  - rewrite IH. cbn. tauto.
  - cbn [In]. rewrite IH. reflexivity.
Qed.

Lemma collapse_cons_not_nil (x : string) (l : list string) : collapse (x :: l) <> [].
Proof.
  rewrite collapse_dedup.
  destruct (dedupAdjacent_head l x) as [r ->]. discriminate.
Qed.

(** [buildConversionPath] in terms of the contributing entries. *)
Lemma buildConversionPath_contributing
    (S : list HistoryEntry) (t : Z) (lb : option Z) :
  buildConversionPath S t lb =
  match contributingEntries S t lb with
  | [] => UNKNOWN
  | cs => collapse (map stepOf cs)
  end.
Proof.
  assert (R := rawPath_contributing S t lb).
  unfold buildConversionPath.
  destruct (windowEntries S t lb) as [|e0 es] eqn:E.
  - unfold contributingEntries. now rewrite E.
  - rewrite R.
    destruct (contributingEntries S t lb) as [|c cs]; [reflexivity|].
    destruct (collapse (map stepOf (c :: cs))) eqn:Ep; [|reflexivity].
    now apply collapse_cons_not_nil in Ep.
Qed.

(** A path other than the sentinel consists of the steps of the
    contributing entries, and of all of them. *)
Lemma buildConversionPath_tokens
    (S : list HistoryEntry) (t : Z) (lb : option Z) (x : string) :
  contributingEntries S t lb <> [] ->
  (In x (buildConversionPath S t lb) <->
   exists e, In e (contributingEntries S t lb) /\ stepOf e = x).
Proof.
  intros Hne. rewrite buildConversionPath_contributing.
  destruct (contributingEntries S t lb) as [|c cs]; [contradiction|].
  rewrite collapse_dedup, dedupAdjacent_In, in_map_iff.
  split; intros [e' [H1 H2]]; exists e'; tauto.
Qed.

(** Restricting the history to the window beforehand changes nothing:
    an entry outside the window has no effect on the path. *)
Lemma windowEntries_filter_window
    (S : list HistoryEntry) (t : Z) (lb : option Z) :
  windowEntries (filter (inWindow t lb) S) t lb = windowEntries S t lb.
Proof.
  unfold windowEntries. f_equal.
  induction S as [|a S IH]; [reflexivity|].
  cbn [filter]. destruct (inWindow t lb a) eqn:Ea; [|assumption].
  cbn [filter]. rewrite Ea. now f_equal.
Qed.

Lemma buildConversionPath_filter_window
    (S : list HistoryEntry) (t : Z) (lb : option Z) :
  buildConversionPath (filter (inWindow t lb) S) t lb = buildConversionPath S t lb.
Proof.
  unfold buildConversionPath. now rewrite windowEntries_filter_window.
Qed.

(** The returned path, read off the history: the sentinel when no entry of
    the window has a non-empty step, and otherwise the non-empty steps of
    the entries of the window, and nothing else. *)
Lemma buildConversionPath_window_tokens
    (S : list HistoryEntry) (t : Z) (lb : option Z) :
  (buildConversionPath S t lb = ["UNKNOWN"]
   /\ forall e, In e S -> t - lookbackMs lb <= tsNumber e <= t ->
                stepOf e = EmptyString)
  \/ ((exists e, In e S /\ t - lookbackMs lb <= tsNumber e <= t
                 /\ stepOf e <> EmptyString)
      /\ forall token,
           In token (buildConversionPath S t lb) <->
           exists e, In e S /\ t - lookbackMs lb <= tsNumber e <= t
                     /\ stepOf e = token /\ token <> EmptyString).
Proof.
  destruct (contributingEntries S t lb) as [|c cs] eqn:E.
  - left. split.
    + now rewrite buildConversionPath_contributing, E.
    + intros e Hin Hw.
      destruct (String.eqb_spec (stepOf e) EmptyString) as [|Hne]; [assumption|].
      assert (In e (contributingEntries S t lb)) as Hc
          by (apply contributingEntries_In; tauto).
      rewrite E in Hc. destruct Hc.
  - assert (contributingEntries S t lb <> []) as Hne by (rewrite E; discriminate).
    right. split.
    + exists c.
      assert (In c (contributingEntries S t lb)) as Hc by (rewrite E; now left).
      apply contributingEntries_In in Hc. tauto.
    + intros token. split.
      * intros Hin. apply (buildConversionPath_tokens S t lb token Hne) in Hin.
        destruct Hin as [e [H1 H2]]. apply contributingEntries_In in H1.
        exists e. subst token. tauto.
      * intros [e [H1 [H2 [H3 H4]]]].
        apply (buildConversionPath_tokens S t lb token Hne).
        exists e. split; [|assumption].
        apply contributingEntries_In. subst token. tauto.
Qed.

(** C6 (as stated, refuted): without a [lookbackDays] argument, and with
    [lookbackDays = 0], an entry 100000000000 ms (more than three years)
    before the conversion satisfies [0 < timestamp <= conversionTimestamp]
    and still does not contribute: the path is the sentinel. *)
Lemma old_entry_outside_default_lookback :
  let old := mkEntry (Some 1600000000000) (Some "PAID_SEARCH") in
  0 < tsNumber old <= 1700000000000
  /\ stepOf old = "PAID_SEARCH"
  /\ contributingEntries [old] 1700000000000 None = []
  /\ buildConversionPath [old] 1700000000000 None = ["UNKNOWN"]
  /\ contributingEntries [old] 1700000000000 (Some 0) = []
  /\ buildConversionPath [old] 1700000000000 (Some 0) = ["UNKNOWN"].
Proof.
  cbv zeta. split; [cbn; lia|]. repeat split; vm_compute; reflexivity.
Qed.

(** C6 (amended): when [lookbackDays] is not supplied or is zero,
    [buildConversionPath] falls back to the default window of
    [MCF_LOOKBACK_DAYS] = 90 days.  The returned path is the one built with
    [lookbackDays = 90]; it is the path of the history with every entry
    outside [conversionTimestamp - 7776000000 <= timestamp <=
    conversionTimestamp] removed; and either no entry of that window has a
    non-empty step and the path is the sentinel, or the tokens of the path
    are exactly the non-empty steps of the entries of that window. *)
Theorem buildConversionPath_default_lookback (S : list HistoryEntry) (t : Z) :
  buildConversionPath S t None = buildConversionPath S t (Some 90)
  /\ buildConversionPath S t (Some 0) = buildConversionPath S t (Some 90)
  /\ buildConversionPath S t None
     = buildConversionPath
         (filter (fun e => (t - 7776000000 <=? tsNumber e) && (tsNumber e <=? t)) S)
         t None
  /\ ((buildConversionPath S t None = ["UNKNOWN"]
       /\ forall e, In e S -> t - 7776000000 <= tsNumber e <= t ->
                    stepOf e = EmptyString)
      \/ ((exists e, In e S /\ t - 7776000000 <= tsNumber e <= t
                     /\ stepOf e <> EmptyString)
          /\ forall token,
               In token (buildConversionPath S t None) <->
               exists e, In e S /\ t - 7776000000 <= tsNumber e <= t
                         /\ stepOf e = token /\ token <> EmptyString)).
Proof.
  split; [reflexivity|]. split; [reflexivity|]. split.
  - symmetry. exact (buildConversionPath_filter_window S t None).
  - exact (buildConversionPath_window_tokens S t None).
Qed.




(** ** pathToKey *)

Lemma noSeparator_app_sep (y r : string) :
  noSeparator (y ++ String ">"%char r)%string = false.
Proof.
  induction y as [|c y IH]; cbn; [reflexivity|].
  rewrite IH. apply andb_false_r.
Qed.

Lemma sep_split (x : string) :
  forall y r1 r2,
    noSeparator x = true -> noSeparator y = true ->
    (x ++ String ">"%char r1)%string = (y ++ String ">"%char r2)%string ->
    x = y /\ r1 = r2.
Proof.
  induction x as [|a x IH]; intros [|c y] r1 r2 Hx Hy E; cbn in *.
  - injection E as E. now split.
  - injection E as E1 E2. subst c. discriminate.
  - injection E as E1 E2. subst a. discriminate.
  - injection E as E1 E2. subst c.
    apply andb_true_iff in Hx, Hy.
    destruct (IH y r1 r2) as [-> ->]; tauto.
Qed.

Lemma pathToKey_cons2 (x y : string) (l : list string) :
  pathToKey (x :: y :: l) = (x ++ String ">"%char (pathToKey (y :: l)))%string.
Proof. reflexivity. Qed.

Lemma pathToKey_inj (p1 : list string) :
  forall p2,
    p1 <> [] -> p2 <> [] ->
    Forall (fun s => noSeparator s = true) p1 ->
    Forall (fun s => noSeparator s = true) p2 ->
    pathToKey p1 = pathToKey p2 -> p1 = p2.
Proof.
  induction p1 as [|x p1 IH]; intros [|y p2] N1 N2 F1 F2 E; try congruence.
  inversion F1 as [|? ? Hx F1']; inversion F2 as [|? ? Hy F2']; subst.
  destruct p1 as [|x' p1], p2 as [|y' p2].
  - cbn in E. now subst.
  - rewrite pathToKey_cons2 in E. cbn in E. subst x.
    now rewrite noSeparator_app_sep in Hx.
  - rewrite pathToKey_cons2 in E. cbn in E. subst y.
    now rewrite noSeparator_app_sep in Hy.
  - rewrite !pathToKey_cons2 in E.
    destruct (sep_split _ _ _ _ Hx Hy E) as [-> E'].
    f_equal. apply IH; try assumption; discriminate.
Qed.

(** C9 (amended): on non-empty paths whose tokens hold no [>] character,
    [pathToKey] is injective: the keys are equal iff the paths are the same
    token sequence. *)
Theorem pathToKey_injective (p1 p2 : list string) :
  p1 <> [] -> p2 <> [] ->
  Forall (fun s => noSeparator s = true) p1 ->
  Forall (fun s => noSeparator s = true) p2 ->
  (pathToKey p1 = pathToKey p2 <-> p1 = p2).
Proof.
  intros N1 N2 F1 F2. split.
  - now apply pathToKey_inj.
  - now intros ->.
Qed.

Lemma pathToKey_injective_witness :
  ["ORGANIC_SEARCH"; "DIRECT_TRAFFIC"] <> ["DIRECT_TRAFFIC"; "ORGANIC_SEARCH"]
  /\ (pathToKey ["ORGANIC_SEARCH"; "DIRECT_TRAFFIC"]
        = pathToKey ["DIRECT_TRAFFIC"; "ORGANIC_SEARCH"]
      <-> ["ORGANIC_SEARCH"; "DIRECT_TRAFFIC"] = ["DIRECT_TRAFFIC"; "ORGANIC_SEARCH"]).
Proof.
  split; [discriminate|].
  apply pathToKey_injective;
    first [ discriminate | repeat constructor ].
Defined.

(** C9 (as stated, refuted): a token that holds [>] makes two different
    paths share a key; both paths are outputs of [buildConversionPath], and
    their conversions land in one row of the table.  The empty path and the
    path of one empty token share the empty key. *)
Lemma pathToKey_collision :
  pathToKey ["A>B"] = pathToKey ["A"; "B"]
  /\ ["A>B"] <> ["A"; "B"]
  /\ buildConversionPath [mkEntry (Some 100) (Some "a>b")] 400 (Some 90) = ["A>B"]
  /\ buildConversionPath
       [mkEntry (Some 100) (Some "a"); mkEntry (Some 200) (Some "b")] 400 (Some 90)
     = ["A"; "B"]
  /\ conversionsOf "A>B"
       (aggregate [mkConversion ["A>B"] 0%float None; mkConversion ["A"; "B"] 0%float None])
     = 2%nat
  /\ pathToKey [] = pathToKey [EmptyString]
  /\ [] <> [EmptyString].
Proof.
  repeat split; try discriminate; vm_compute; reflexivity.
Qed.

(** ** computeMarketingContribution *)

Lemma countIf_perm {A : Type} (f : A -> bool) (l l' : list A) :
  Permutation l l' -> countIf f l = countIf f l'.
Proof.
  unfold countIf.
  induction 1 as [|x l l' _ IH|x y l|l l' l'' _ IH1 _ IH2]; cbn.
  - reflexivity.
  - destruct (f x); cbn; congruence.
  - destruct (f x), (f y); reflexivity.
  - congruence.
Qed.

Lemma fold_countEntry (ms : list string) (l : list HistoryEntry) :
  forall a b,
    fold_left (countEntry ms) l (a, b) =
    ((a + countIf countsInTotal l)%nat, (b + countIf (countsAsMarketing ms) l)%nat).
Proof.
  unfold countIf, countsInTotal, countsAsMarketing.
  induction l as [|e l IH]; intros a b; cbn [fold_left filter].
  - cbn. now rewrite !Nat.add_0_r.
  - unfold countEntry at 2. cbn [fst snd].
    destruct (JS.truthy (newValue e)); cbn [andb].
    + destruct (JS.has ms (newValue e)); rewrite IH; cbn [List.length]; f_equal; lia.
    + apply IH.
Qed.

(** The result depends on the history only through the two counts. *)
Lemma computeMarketingContribution_counts (l : list HistoryEntry) (ms : list string) :
  computeMarketingContribution l ms =
  contributionOf (countIf countsInTotal l) (countIf (countsAsMarketing ms) l).
Proof.
  unfold computeMarketingContribution.
  destruct (sortByTimestamp l) as [|e es] eqn:E.
  - apply sort_nil_inv in E. now subst.
  - rewrite <- E, fold_countEntry. cbn [fst snd Nat.add].
    unfold sortByTimestamp.
    rewrite !(countIf_perm _ _ _ (sort_perm laterThan l)).
    reflexivity.
Qed.

(** C5 (as stated, refuted): a lower-case value whose upper-cased form is
    in the marketing set counts towards the total and not towards the
    marketing count. *)
Lemma lowercase_value_not_marketing :
  JS.has DEFAULT_MARKETING_SOURCES (JS.toUpperCase (JS.trim "referrals")) = true
  /\ computeMarketingContribution
       [mkEntry (Some 1) (Some "referrals")] DEFAULT_MARKETING_SOURCES
     = mkContribution 0%float 1 0.
Proof.
  split; vm_compute; reflexivity.
Qed.

(** C5 (amended): every entry with a non-empty trimmed value counts one
    unit in [totalChanges]; it counts in [marketingChanges] iff its trimmed
    value, compared as it stands (case-sensitive, not upper-cased), is in
    the marketing set; [percent] is their quotient, and 0 when
    [totalChanges] is 0.  The history REFERRALS, OFFLINE, PAID_SEARCH,
    OFFLINE scores 4, 2 and 0.5. *)
Theorem computeMarketingContribution_policy
    (historyEntries : list HistoryEntry) (marketingSources : list string) :
  totalChanges (computeMarketingContribution historyEntries marketingSources)
    = countIf (fun e => JS.truthy (newValue e)) historyEntries
  /\ marketingChanges (computeMarketingContribution historyEntries marketingSources)
    = countIf (fun e => JS.truthy (newValue e) && JS.has marketingSources (newValue e))
              historyEntries
  /\ percent (computeMarketingContribution historyEntries marketingSources)
    = (if (totalChanges (computeMarketingContribution historyEntries marketingSources) =? 0)%nat
       then 0%float
       else PrimFloat.div
              (JS.ofNat (marketingChanges (computeMarketingContribution historyEntries marketingSources)))
              (JS.ofNat (totalChanges (computeMarketingContribution historyEntries marketingSources))))
  /\ computeMarketingContribution
       [ mkEntry (Some 1) (Some "REFERRALS"); mkEntry (Some 2) (Some "OFFLINE");
         mkEntry (Some 3) (Some "PAID_SEARCH"); mkEntry (Some 4) (Some "OFFLINE") ]
       DEFAULT_MARKETING_SOURCES
     = mkContribution 0.5%float 4 2.
Proof.
  rewrite computeMarketingContribution_counts.
  split; [reflexivity|]. split; [reflexivity|]. split.
  - cbn. now destruct (countIf countsInTotal historyEntries).
  - vm_compute. reflexivity.
Qed.

(** C10: [computeMarketingContribution] returns the same [percent],
    [totalChanges] and [marketingChanges] for every reordering of the
    history. *)
Theorem computeMarketingContribution_permutation
    (l l' : list HistoryEntry) (marketingSources : list string) :
  Permutation l l' ->
  computeMarketingContribution l marketingSources
  = computeMarketingContribution l' marketingSources
  /\ percent (computeMarketingContribution l marketingSources)
     = percent (computeMarketingContribution l' marketingSources)
  /\ totalChanges (computeMarketingContribution l marketingSources)
     = totalChanges (computeMarketingContribution l' marketingSources)
  /\ marketingChanges (computeMarketingContribution l marketingSources)
     = marketingChanges (computeMarketingContribution l' marketingSources).
Proof.
  intros H.
  assert (computeMarketingContribution l marketingSources
          = computeMarketingContribution l' marketingSources) as E.
  { rewrite !computeMarketingContribution_counts.
    now rewrite (countIf_perm _ _ _ H), (countIf_perm (countsAsMarketing _) _ _ H). }
  now rewrite E.
Qed.

Lemma computeMarketingContribution_permutation_witness :
  let a := mkEntry (Some 300) (Some "PAID_SEARCH") in
  let b := mkEntry (Some 100) (Some "OFFLINE") in
  let c := mkEntry (Some 200) (Some " referrals ") in
  computeMarketingContribution [a; b; c] DEFAULT_MARKETING_SOURCES
  = computeMarketingContribution [b; a; c] DEFAULT_MARKETING_SOURCES
  /\ percent (computeMarketingContribution [a; b; c] DEFAULT_MARKETING_SOURCES)
     = percent (computeMarketingContribution [b; a; c] DEFAULT_MARKETING_SOURCES)
  /\ totalChanges (computeMarketingContribution [a; b; c] DEFAULT_MARKETING_SOURCES)
     = totalChanges (computeMarketingContribution [b; a; c] DEFAULT_MARKETING_SOURCES)
  /\ marketingChanges (computeMarketingContribution [a; b; c] DEFAULT_MARKETING_SOURCES)
     = marketingChanges (computeMarketingContribution [b; a; c] DEFAULT_MARKETING_SOURCES).
Proof.
  cbv zeta. apply computeMarketingContribution_permutation. apply perm_swap.
Defined.

(** ** getClosedWonStageIds *)

Lemma has_true (s : list string) (x : string) : JS.has s x = true <-> In x s.
Proof.
  unfold JS.has. rewrite existsb_exists. split.
  - intros [y [Hin Heq]]. apply String.eqb_eq in Heq. now subst.
  - intros Hin. exists x. split; [assumption | apply String.eqb_refl].
Qed.

Lemma add_In (s : list string) (y x : string) :
  In x (JS.add s y) <-> In x s \/ x = y.
Proof.
  unfold JS.add. destruct (JS.has s y) eqn:E.
  - apply has_true in E. split; [now left | intros [H | ->]; assumption].
  - rewrite in_app_iff. cbn. intuition congruence.
Qed.

Lemma closedWonTest_true (st : Stage) :
  closedWonTest st = true <->
  exists meta,
    metadata st = Some meta
    /\ isClosed meta = Some "true"
    /\ PrimFloat.leb 1%float (parsedProbability meta) = true.
Proof.
  unfold closedWonTest. split.
  - destruct (metadata st) as [meta|]; [|discriminate].
    destruct (isClosed meta) as [c|] eqn:Ec; [|discriminate].
    intros H. apply andb_true_iff in H. destruct H as [H1 H2].
    apply String.eqb_eq in H1. subst c. now exists meta.
  - intros [meta [-> [-> H]]]. now rewrite H.
Qed.

Lemma fold_addStage_In (l : list Stage) :
  forall ids x,
    In x (fold_left addStage l ids) <->
    In x ids \/ exists st, In st l /\ closedWonTest st = true /\ id st = x.
Proof.
  induction l as [|s l IH]; intros ids x; cbn [fold_left].
  - split; [now left | intros [H | [st [[] _]]]; assumption].
  - rewrite IH. unfold addStage at 1.
    destruct (closedWonTest s) eqn:E.
    + rewrite add_In. split.
      * intros [[H | ->] | [st [H1 H2]]]; [now left | right | right].
        -- exists s. cbn. tauto.
        -- exists st. cbn. tauto.
      * intros [H | [st [[<- | H1] [H2 H3]]]]; [tauto | left; right; congruence | right].
        exists st. tauto.
    + split.
      * intros [H | [st [H1 H2]]]; [now left | right]. exists st. cbn. tauto.
      * intros [H | [st [[<- | H1] [H2 H3]]]]; [tauto | congruence | right].
        exists st. tauto.
Qed.

Lemma fold_addPipeline_In (ps : list DealPipeline) :
  forall ids x,
    In x (fold_left addPipeline ps ids) <->
    In x ids \/
    exists p st, In p ps /\ In st (stagesOf p) /\ closedWonTest st = true /\ id st = x.
Proof.
  induction ps as [|p ps IH]; intros ids x; cbn [fold_left].
  - split; [now left | intros [H | [p [st [[] _]]]]; assumption].
  - rewrite IH. unfold addPipeline at 1. rewrite fold_addStage_In. split.
    + intros [[H | [st H]] | [q [st [H1 H2]]]]; [now left | right | right].
      * exists p, st. cbn. tauto.
      * exists q, st. cbn. tauto.
    + intros [H | [q [st [[<- | H1] H2]]]]; [tauto | left; right | right].
      * exists st. tauto.
      * exists q, st. tauto.
Qed.

Lemma collectStageIds_In (data : PipelinesResponse) (x : string) :
  In x (collectStageIds data) <->
  exists p st,
    In p (pipelinesOf data) /\ In st (stagesOf p)
    /\ closedWonTest st = true /\ id st = x.
Proof.
  unfold collectStageIds. rewrite fold_addPipeline_In. cbn. tauto.
Qed.

(** A cache entry younger than one hour is returned as it is. *)
Lemma getClosedWonStageIds_cached
    (cache : PipelineCache) (now now' : Z) (key : string)
    (response : option PipelinesResponse) (entry : CacheEntry) :
  cacheGet cache key = Some entry ->
  now - fetchedAt entry < 3600000 ->
  getClosedWonStageIds cache now now' key response = (stageIds entry, cache).
Proof.
  intros Hc Hf. unfold getClosedWonStageIds. rewrite Hc.
  apply Z.ltb_lt in Hf. now rewrite Hf.
Qed.

(** A failed request yields the empty set and leaves the cache alone. *)
Lemma getClosedWonStageIds_failed (now now' : Z) (key : string) :
  getClosedWonStageIds [] now now' key None = ([], []).
Proof. reflexivity. Qed.

(** C8 (as stated, refuted): a closed stage whose probability is 1.5, not
    1.0, is classified as closed-won. *)
Lemma stage_with_probability_above_one :
  let st := mkStage "overwon" (Some (mkMeta (Some "true") (Some 1.5%float))) in
  let data := mkResponse (Some [mkPipeline (Some [st])]) in
  PrimFloat.eqb 1.5%float 1%float = false
  /\ fst (getClosedWonStageIds [] 0 0 "portal" (Some data)) = ["overwon"].
Proof.
  cbv zeta. split; vm_compute; reflexivity.
Qed.

(** C8 (amended): when the pipelines are fetched (no cache entry younger
    than one hour), a stage id is in the returned set iff some stage with
    that id has [isClosed] equal to the string [true] and a
    win-probability greater than or equal to 1.0. *)
Theorem getClosedWonStageIds_classifies
    (cache : PipelineCache) (now now' : Z) (key : string)
    (data : PipelinesResponse) (stageId : string) :
  (forall entry, cacheGet cache key = Some entry -> 3600000 <= now - fetchedAt entry) ->
  (In stageId (fst (getClosedWonStageIds cache now now' key (Some data))) <->
   exists p st meta,
     In p (pipelinesOf data) /\ In st (stagesOf p) /\ id st = stageId
     /\ metadata st = Some meta
     /\ isClosed meta = Some "true"
     /\ PrimFloat.leb 1%float (parsedProbability meta) = true).
Proof.
  intros Hstale.
  assert (fst (getClosedWonStageIds cache now now' key (Some data))
          = collectStageIds data) as ->.
  { unfold getClosedWonStageIds.
    destruct (cacheGet cache key) as [entry|] eqn:Ec; [|reflexivity].
    specialize (Hstale entry eq_refl).
    apply Z.ltb_ge in Hstale. now rewrite Hstale. }
  rewrite collectStageIds_In. split.
  - intros [p [st [Hp [Hs [Ht Hid]]]]].
    apply closedWonTest_true in Ht. destruct Ht as [meta Hm].
    exists p, st, meta. tauto.
  - intros [p [st [meta [Hp [Hs [Hid Hm]]]]]].
    exists p, st. repeat split; try assumption.
    apply closedWonTest_true. now exists meta.
Qed.

Lemma getClosedWonStageIds_classifies_witness :
  In "closedwon"
     (fst (getClosedWonStageIds [] 1000 1001 "portal"
             (Some (mkResponse (Some [mkPipeline (Some
                [ mkStage "appointment" (Some (mkMeta (Some "false") (Some 0.25%float)));
                  mkStage "closedwon" (Some (mkMeta (Some "true") (Some 1%float)));
                  mkStage "closedlost" (Some (mkMeta (Some "true") None)) ])])))))
  <->
  exists p st meta,
    In p (pipelinesOf (mkResponse (Some [mkPipeline (Some
                [ mkStage "appointment" (Some (mkMeta (Some "false") (Some 0.25%float)));
                  mkStage "closedwon" (Some (mkMeta (Some "true") (Some 1%float)));
                  mkStage "closedlost" (Some (mkMeta (Some "true") None)) ])])))
    /\ In st (stagesOf p) /\ id st = "closedwon"
    /\ metadata st = Some meta
    /\ isClosed meta = Some "true"
    /\ PrimFloat.leb 1%float (parsedProbability meta) = true.
Proof.
  apply getClosedWonStageIds_classifies.
  cbn. intros entry H. discriminate H.
Defined.

(** ** Path aggregation *)

Lemma pcGet_app (pc : PathCounts) (k key : string) (r : PathRow) :
  pcGet (pc ++ [(k, r)]) key =
  match pcGet pc key with
  | Some x => Some x
  | None => if (k =? key)%string then Some r else None
  end.
Proof.
  induction pc as [|[k0 r0] pc IH]; cbn; [reflexivity|].
  destruct (k0 =? key)%string; [reflexivity | exact IH].
Qed.

Lemma pcGet_update (pc : PathCounts) (k key : string) (f : PathRow -> PathRow) :
  pcGet (pcUpdate k f pc) key =
  if (k =? key)%string then option_map f (pcGet pc key) else pcGet pc key.
Proof.
  induction pc as [|[k0 r0] pc IH]; cbn.
  - now destruct (k =? key)%string.
  - destruct (String.eqb_spec k0 k) as [->|Hk0]; cbn.
    + destruct (String.eqb_spec k key) as [->|Hk]; cbn; [reflexivity|].
      reflexivity.
    + rewrite IH.
      destruct (String.eqb_spec k key) as [->|Hk].
      * destruct (String.eqb_spec k0 key); [contradiction | reflexivity].
      * reflexivity.
Qed.

(** The row a key reads after one more conversion. *)
Lemma pcGet_accumulate (pc : PathCounts) (c : Conversion) (key : string) :
  pcGet (accumulate pc c) key =
  if (pathToKey (convPath c) =? key)%string
  then Some (bump c (match pcGet pc key with
                     | Some r => r
                     | None => mkRow (convPath c) 0 0%float []
                     end))
  else pcGet pc key.
Proof.
  unfold accumulate. rewrite pcGet_update.
  destruct (String.eqb_spec (pathToKey (convPath c)) key) as [<-|Hk].
  - destruct (pcGet pc (pathToKey (convPath c))) as [r|] eqn:E.
    + now rewrite E.
    + rewrite pcGet_app, E, String.eqb_refl. reflexivity.
  - destruct (pcGet pc (pathToKey (convPath c))) as [r|] eqn:E; [reflexivity|].
    rewrite pcGet_app.
    destruct (pcGet pc key); [reflexivity|].
    destruct (String.eqb_spec (pathToKey (convPath c)) key); [contradiction | reflexivity].
Qed.

Lemma conversionsOf_fold (cs : list Conversion) (key : string) :
  forall pc,
    conversionsOf key (fold_left accumulate cs pc) =
    (conversionsOf key pc + countIf (hasKey key) cs)%nat.
Proof.
  unfold countIf.
  induction cs as [|c cs IH]; intros pc; cbn [fold_left filter].
  - cbn. lia.
  - rewrite IH. unfold conversionsOf at 1. rewrite pcGet_accumulate.
    unfold hasKey at 2, conversionsOf.
    destruct (pathToKey (convPath c) =? key)%string; cbn [List.length].
    + destruct (pcGet pc key); cbn; lia.
    + reflexivity.
Qed.

Lemma totalValueOf_fold (cs : list Conversion) (key : string) :
  forall pc,
    totalValueOf key (fold_left accumulate cs pc) =
    fold_left PrimFloat.add (valuesFor key cs) (totalValueOf key pc).
Proof.
  unfold valuesFor.
  induction cs as [|c cs IH]; intros pc; cbn [fold_left filter map].
  - reflexivity.
  - rewrite IH. unfold totalValueOf at 1. rewrite pcGet_accumulate.
    unfold totalValueOf, hasKey at 2.
    destruct (pathToKey (convPath c) =? key)%string; cbn [map fold_left].
    + destruct (pcGet pc key); reflexivity.
    + reflexivity.
Qed.

Lemma currenciesOf_fold (cs : list Conversion) (key cur : string) :
  forall pc,
    In cur (currenciesOf key (fold_left accumulate cs pc)) <->
    In cur (currenciesOf key pc)
    \/ exists c, In c cs /\ hasKey key c = true
                 /\ convCurrency c = Some cur /\ cur <> EmptyString.
Proof.
  induction cs as [|c cs IH]; intros pc; cbn [fold_left].
  - split; [now left | intros [H | [c [[] _]]]; assumption].
  - rewrite IH. clear IH.
    assert (In cur (currenciesOf key (accumulate pc c)) <->
            In cur (currenciesOf key pc)
            \/ (hasKey key c = true /\ convCurrency c = Some cur /\ cur <> EmptyString))
      as Hstep.
    { unfold currenciesOf at 1. rewrite pcGet_accumulate. unfold hasKey, currenciesOf.
      destruct (pathToKey (convPath c) =? key)%string.
      - assert (forall r,
                   In cur (currencies (bump c r)) <->
                   In cur (currencies r)
                   \/ (convCurrency c = Some cur /\ cur <> EmptyString)) as Hb.
        { intros r. unfold bump. cbn [currencies].
          destruct (convCurrency c) as [x|].
          - destruct (JS.truthy x) eqn:Et.
            + rewrite add_In. apply truthy_true in Et.
              split; [intros [H | ->]; [tauto | right; tauto]
                     | intros [H | [H1 H2]]; [tauto | right; congruence]].
            + split; [tauto|]. intros [H | [H1 H2]]; [assumption|].
              injection H1 as ->. apply truthy_true in H2. congruence.
          - split; [tauto | intros [H | [H1 _]]; [assumption | discriminate]]. }
        destruct (pcGet pc key) as [r|]; rewrite Hb; cbn; tauto.
      - split; [tauto | intros [H | [H _]]; [assumption | discriminate]]. }
    rewrite Hstep. split.
    + intros [[H | H] | [c' [H1 H2]]]; [tauto | right; exists c | right; exists c'];
        cbn; tauto.
    + intros [H | [c' [[<- | H1] H2]]]; [tauto | tauto | right; exists c'; tauto].
Qed.

Lemma exists_perm {A : Type} (P : A -> Prop) (l l' : list A) :
  Permutation l l' -> (exists x, In x l /\ P x) -> exists x, In x l' /\ P x.
Proof.
  intros Hp [x [Hin HP]]. exists x. split; [|assumption].
  now apply (Permutation_in _ Hp).
Qed.

(** The table holds a row for a key iff some conversion has that key. *)
Lemma aggregate_row (cs : list Conversion) (key : string) :
  pcGet (aggregate cs) key = None <-> countIf (hasKey key) cs = 0%nat.
Proof.
  unfold aggregate.
  assert (forall pc,
             pcGet (fold_left accumulate cs pc) key = None <->
             pcGet pc key = None /\ countIf (hasKey key) cs = 0%nat) as H.
  { unfold countIf.
    induction cs as [|c cs IH]; intros pc; cbn [fold_left filter].
    - cbn. tauto.
    - rewrite IH, pcGet_accumulate. unfold hasKey at 2.
      destruct (pathToKey (convPath c) =? key)%string; cbn [List.length].
      + split; [intros [H _]; discriminate | intros [_ H]; discriminate].
      + reflexivity. }
  rewrite H. cbn. tauto.
Qed.

#[local] Set Warnings "-inexact-float".

(** C2 (as stated, refuted): three conversions of one path with the
    amounts 0.1, 0.2 and 0.3; processed in this order the row totals
    0.6000000000000001, processed in the reverse order it totals 0.6. *)
Lemma totalValue_depends_on_order :
  let a := mkConversion ["DIRECT_TRAFFIC"] 0.1%float (Some "USD") in
  let b := mkConversion ["DIRECT_TRAFFIC"] 0.2%float (Some "USD") in
  let c := mkConversion ["DIRECT_TRAFFIC"] 0.3%float (Some "USD") in
  Permutation [a; b; c] [c; b; a]
  /\ totalValueOf "DIRECT_TRAFFIC" (aggregate [a; b; c]) = 0.6000000000000001%float
  /\ totalValueOf "DIRECT_TRAFFIC" (aggregate [c; b; a]) = 0.6%float
  /\ PrimFloat.eqb (totalValueOf "DIRECT_TRAFFIC" (aggregate [a; b; c]))
                   (totalValueOf "DIRECT_TRAFFIC" (aggregate [c; b; a])) = false
  /\ totalValueOf "DIRECT_TRAFFIC" (aggregate [a; b; c])
     <> totalValueOf "DIRECT_TRAFFIC" (aggregate [c; b; a]).
Proof.
  cbv zeta. split; [apply (Permutation_rev [_; _; _])|].
  split; [vm_compute; reflexivity|].
  split; [vm_compute; reflexivity|].
  split; [vm_compute; reflexivity|].
  intros H.
  apply (f_equal (PrimFloat.eqb 0.6%float)) in H.
  vm_compute in H. discriminate H.
Qed.

#[local] Set Warnings "+inexact-float".

(** C2 (amended): for any permutation of the same conversions, every
    PathKey has a row in both tables or in neither, with the same
    conversions count and the same currency set.  The totalValue of a key
    is the double-precision sum of its amounts taken in processing order;
    it is the same whenever the key's amounts come in the same order. *)
Theorem aggregate_permutation
    (cs cs' : list Conversion) (key currency : string) :
  Permutation cs cs' ->
  (pcGet (aggregate cs) key = None <-> pcGet (aggregate cs') key = None)
  /\ conversionsOf key (aggregate cs) = conversionsOf key (aggregate cs')
  /\ (In currency (currenciesOf key (aggregate cs)) <->
      In currency (currenciesOf key (aggregate cs')))
  /\ totalValueOf key (aggregate cs) = fold_left PrimFloat.add (valuesFor key cs) 0%float
  /\ (valuesFor key cs = valuesFor key cs' ->
      totalValueOf key (aggregate cs) = totalValueOf key (aggregate cs')).
Proof.
  intros Hp. split; [|unfold aggregate; split; [|split; [|split]]].
  - rewrite !aggregate_row.
    now rewrite (countIf_perm _ _ _ Hp).
  - rewrite !conversionsOf_fold. now rewrite (countIf_perm _ _ _ Hp).
  - rewrite !currenciesOf_fold.
    split; (intros [H | H]; [now left | right]);
      [ apply (exists_perm _ _ _ Hp) in H
      | apply (exists_perm _ _ _ (Permutation_sym Hp)) in H ]; exact H.
  - apply totalValueOf_fold.
  - intros Hv. rewrite !totalValueOf_fold. now rewrite Hv.
Qed.

Lemma aggregate_permutation_witness :
  let a := mkConversion ["ORGANIC_SEARCH"; "DIRECT_TRAFFIC"] 1200%float (Some "USD") in
  let b := mkConversion ["PAID_SEARCH"] 250.5%float (Some "EUR") in
  let c := mkConversion ["ORGANIC_SEARCH"; "DIRECT_TRAFFIC"] 99.75%float (Some "EUR") in
  let key := "ORGANIC_SEARCH>DIRECT_TRAFFIC" in
  (pcGet (aggregate [a; b; c]) key = None <-> pcGet (aggregate [b; a; c]) key = None)
  /\ conversionsOf key (aggregate [a; b; c]) = conversionsOf key (aggregate [b; a; c])
  /\ (In "EUR" (currenciesOf key (aggregate [a; b; c])) <->
      In "EUR" (currenciesOf key (aggregate [b; a; c])))
  /\ totalValueOf key (aggregate [a; b; c])
     = fold_left PrimFloat.add (valuesFor key [a; b; c]) 0%float
  /\ (valuesFor key [a; b; c] = valuesFor key [b; a; c] ->
      totalValueOf key (aggregate [a; b; c]) = totalValueOf key (aggregate [b; a; c])).
Proof.
  cbv zeta. apply aggregate_permutation. apply perm_swap.
Defined.

(** ** Threshold filter and ranking *)

(** A summary is in the ranked output iff it is the summary of a row of
    the table whose conversions count reaches the cutoff. *)
Lemma topPaths_In
    (pathCounts : PathCounts) (totalConversions : nat) (thresholdPct : float)
    (s : PathSummary) :
  In s (topPaths pathCounts totalConversions thresholdPct) <->
  exists p,
    In p (map snd pathCounts)
    /\ PrimFloat.leb (threshNum totalConversions thresholdPct) (JS.ofNat (conversions p)) = true
    /\ toSummary p = s.
Proof.
  unfold topPaths. rewrite in_map_iff. split.
  - intros [p [Hs Hin]]. apply sort_In in Hin. apply filter_In in Hin.
    exists p. unfold qualifies in Hin. tauto.
  - intros [p [Hin [Hq Hs]]]. exists p. split; [assumption|].
    apply sort_In. apply filter_In. unfold qualifies. tauto.
Qed.

(** For 27 conversions and a threshold of 10 percent the cutoff is 3: a
    path with 3 conversions qualifies, one with 2 does not; with no
    conversions at all the cutoff is 1. *)
Lemma threshNum_27_10 :
  threshNum 27 10%float = 3%float
  /\ specThresholdCount 27 10 = 3
  /\ qualifies (threshNum 27 10%float) (mkRow ["C"; "D"] 3 0%float []) = true
  /\ qualifies (threshNum 27 10%float) (mkRow ["F"; "G"; "H"] 2 0%float []) = false
  /\ threshNum 0 10%float = 1%float.
Proof.
  repeat split; vm_compute; reflexivity.
Qed.

#[local] Set Warnings "-inexact-float".

(** C3 (the code departs from the claim): for 100 conversions and a
    threshold of 7 percent the product [100 * (7 / 100)] is
    7.000000000000001 in double arithmetic, so the cutoff the code computes
    is 8, while [max(1, ceil(100 * 7 / 100))] is 7; a path with 7 of the 100
    conversions is filtered out of the ranked output. *)
Theorem threshNum_7_percent_of_100 :
  PrimFloat.mul (JS.ofNat 100) (PrimFloat.div 7%float 100%float) = 7.000000000000001%float
  /\ threshNum 100 7%float = 8%float
  /\ specThresholdCount 100 7 = 7
  /\ PrimFloat.leb (JS.ofZ (specThresholdCount 100 7)) (JS.ofNat 7) = true
  /\ qualifies (threshNum 100 7%float) (mkRow ["EMAIL_MARKETING"] 7 0%float []) = false
  /\ topPaths [ ("DIRECT_TRAFFIC", mkRow ["DIRECT_TRAFFIC"] 93 0%float []);
                ("EMAIL_MARKETING", mkRow ["EMAIL_MARKETING"] 7 0%float []) ]
              100 7%float
     = [ mkSummary ["DIRECT_TRAFFIC"] "DIRECT_TRAFFIC" 93 0%float [] ].
Proof.
  repeat split; vm_compute; reflexivity.
Qed.

#[local] Set Warnings "+inexact-float".

(* ================================================================= *)
(** * The assertions of [test-mcf.js], replayed on the embedding *)

Module TestMcf.

Example collapse_AAB :
  buildConversionPath
    [entry 100 "ORGANIC_SEARCH"; entry 200 "ORGANIC_SEARCH"; entry 300 "DIRECT_TRAFFIC"]
    400 (Some 90)
  = ["ORGANIC_SEARCH"; "DIRECT_TRAFFIC"].
Proof. vm_compute. reflexivity. Qed.

Example collapse_ABA :
  buildConversionPath
    [entry 100 "ORGANIC_SEARCH"; entry 200 "DIRECT_TRAFFIC"; entry 300 "ORGANIC_SEARCH"]
    400 (Some 90)
  = ["ORGANIC_SEARCH"; "DIRECT_TRAFFIC"; "ORGANIC_SEARCH"].
Proof. vm_compute. reflexivity. Qed.

Example collapse_AAABBC :
  buildConversionPath
    [entry 100 "PAID_SEARCH"; entry 200 "PAID_SEARCH"; entry 300 "PAID_SEARCH";
     entry 400 "EMAIL_MARKETING"; entry 500 "EMAIL_MARKETING"; entry 600 "REFERRALS"]
    700 (Some 90)
  = ["PAID_SEARCH"; "EMAIL_MARKETING"; "REFERRALS"].
Proof. vm_compute. reflexivity. Qed.

Example single_entry :
  buildConversionPath [entry 100 "DIRECT_TRAFFIC"] 200 (Some 90) = ["DIRECT_TRAFFIC"].
Proof. vm_compute. reflexivity. Qed.

Example empty_history : buildConversionPath [] 200 (Some 90) = ["UNKNOWN"].
Proof. reflexivity. Qed.

Example case_variants :
  buildConversionPath [entry 100 "organic_search"; entry 200 "Organic_Search"] 300 (Some 90)
  = ["ORGANIC_SEARCH"].
Proof. vm_compute. reflexivity. Qed.

Example outside_lookback_excluded :
  let convTs := 1000000 in
  let lookback := 90 * 24 * 60 * 60 * 1000 in
  buildConversionPath
    [entry (convTs - lookback - 1) "PAID_SEARCH";
     entry (convTs - lookback + 1000) "ORGANIC_SEARCH";
     entry (convTs - 1000) "DIRECT_TRAFFIC"]
    convTs (Some 90)
  = ["ORGANIC_SEARCH"; "DIRECT_TRAFFIC"].
Proof. vm_compute. reflexivity. Qed.

Example after_conversion_excluded :
  buildConversionPath
    [entry 100 "ORGANIC_SEARCH"; entry 300 "PAID_SEARCH"; entry 500 "DIRECT_TRAFFIC"]
    400 (Some 90)
  = ["ORGANIC_SEARCH"; "PAID_SEARCH"].
Proof. vm_compute. reflexivity. Qed.

Example pathToKey_joins :
  pathToKey ["ORGANIC_SEARCH"; "DIRECT_TRAFFIC"] = "ORGANIC_SEARCH>DIRECT_TRAFFIC"
  /\ pathToKey ["UNKNOWN"] = "UNKNOWN"
  /\ pathToKey [] = EmptyString.
Proof. repeat split. Qed.

Example aggregation_counts :
  let h1 := [entry 100 "ORGANIC_SEARCH"; entry 200 "DIRECT_TRAFFIC"] in
  let h2 := [entry 150 "ORGANIC_SEARCH"; entry 250 "DIRECT_TRAFFIC"] in
  let h3 := [entry 100 "PAID_SEARCH"] in
  let conv := fun h => mkConversion (buildConversionPath h 300 (Some 90)) 0%float None in
  let run1 := aggregate (map conv [h1; h2; h3]) in
  let run2 := aggregate (map conv (rev [h1; h2; h3])) in
  conversionsOf "ORGANIC_SEARCH>DIRECT_TRAFFIC" run1 = 2%nat
  /\ conversionsOf "PAID_SEARCH" run1 = 1%nat
  /\ conversionsOf "ORGANIC_SEARCH>DIRECT_TRAFFIC" run2 = 2%nat
  /\ conversionsOf "PAID_SEARCH" run2 = 1%nat.
Proof. cbv zeta. repeat split; vm_compute; reflexivity. Qed.

End TestMcf.

(* ================================================================= *)
(** * Further properties of [server.js] *)

(** ** escapeHtml *)

Lemma string_app_assoc (a b c : string) :
  ((a ++ b) ++ c)%string = (a ++ (b ++ c))%string.
Proof.
  induction a as [|x a IH]; cbn; [reflexivity | now rewrite IH].
Qed.

Lemma replaceAll_app (c : ascii) (r a b : string) :
  replaceAll c r (a ++ b)%string = (replaceAll c r a ++ replaceAll c r b)%string.
Proof.
  induction a as [|x a IH]; cbn; [reflexivity|].
  destruct (Ascii.eqb x c); rewrite IH; [|reflexivity].
  now rewrite string_app_assoc.
Qed.

(** The three passes amount to one pass that rewrites each character on
    its own: the replacement of [&] brings in no [<] or [>], and those of
    [<] and [>] bring in no [>]. *)
Lemma escapeHtml_each (s : string) : escapeHtml s = escapeEach s.
Proof.
  unfold escapeHtml.
  induction s as [|a s IH]; [reflexivity|].
  cbn [replaceAll escapeEach]. unfold escapeChar.
  destruct (Ascii.eqb_spec a "&"%char) as [->|Hamp].
  - rewrite !replaceAll_app, IH. reflexivity.
  - cbn [replaceAll].
    destruct (Ascii.eqb_spec a "<"%char) as [->|Hlt].
    + rewrite !replaceAll_app, IH. reflexivity.
    + cbn [replaceAll].
      destruct (Ascii.eqb_spec a ">"%char) as [->|Hgt].
      * rewrite IH. reflexivity.
      * rewrite IH. reflexivity.
Qed.

Lemma occurs_app (c : ascii) (a b : string) :
  occurs c (a ++ b)%string = occurs c a || occurs c b.
Proof.
  induction a as [|x a IH]; cbn; [reflexivity|].
  now rewrite IH, orb_assoc.
Qed.

(** X1: the output of [escapeHtml] holds neither [<] nor [>], whatever the
    input. *)
Theorem escapeHtml_no_angle_brackets (str : string) :
  occurs "<"%char (escapeHtml str) = false
  /\ occurs ">"%char (escapeHtml str) = false.
Proof.
  rewrite escapeHtml_each.
  induction str as [|a s [IH1 IH2]]; [split; reflexivity|].
  cbn [escapeEach]. rewrite !occurs_app, IH1, IH2, !orb_false_r.
  unfold escapeChar.
  destruct (Ascii.eqb_spec a "&"%char) as [->|Hamp]; [split; reflexivity|].
  destruct (Ascii.eqb a "<"%char) eqn:Hlt; [split; reflexivity|].
  destruct (Ascii.eqb a ">"%char) eqn:Hgt; [split; reflexivity|].
  cbn. now rewrite Hlt, Hgt.
Qed.

Lemma escapeEach_inj (a : string) :
  forall b, escapeEach a = escapeEach b -> a = b.
Proof.
  induction a as [|c a IH]; intros [|d b] H.
  - reflexivity.
  - exfalso. cbn in H. unfold escapeChar in H.
    destruct (Ascii.eqb d "&"%char); [discriminate|].
    destruct (Ascii.eqb d "<"%char); [discriminate|].
    destruct (Ascii.eqb d ">"%char); discriminate.
  - exfalso. cbn in H. unfold escapeChar in H.
    destruct (Ascii.eqb c "&"%char); [discriminate|].
    destruct (Ascii.eqb c "<"%char); [discriminate|].
    destruct (Ascii.eqb c ">"%char); discriminate.
  - cbn [escapeEach] in H. unfold escapeChar in H.
    destruct (Ascii.eqb_spec c "&"%char) as [->|Hc1];
      [|destruct (Ascii.eqb_spec c "<"%char) as [->|Hc2];
        [|destruct (Ascii.eqb_spec c ">"%char) as [->|Hc3]]];
    (destruct (Ascii.eqb_spec d "&"%char) as [->|Hd1];
      [|destruct (Ascii.eqb_spec d "<"%char) as [->|Hd2];
        [|destruct (Ascii.eqb_spec d ">"%char) as [->|Hd3]]]);
    cbn in H; try discriminate H;
      try (injection H as H; f_equal; now apply IH);
      try (injection H as H0 H; congruence).
    injection H as H0 H. f_equal; [assumption | now apply IH].
Qed.

(** X2: [escapeHtml] loses nothing: two strings with the same escaped form
    are the same string. *)
Theorem escapeHtml_injective (a b : string) :
  escapeHtml a = escapeHtml b <-> a = b.
Proof.
  split; [|now intros ->].
  rewrite !escapeHtml_each. apply escapeEach_inj.
Qed.

(** ** hubspotApiWithRetry *)

Lemma sumZ_app (a b : list Z) : sumZ (a ++ b) = sumZ a + sumZ b.
Proof.
  induction a as [|x a IH]; cbn; lia.
Qed.

Section RetryFacts.
Context {A : Type} (request : nat -> ApiOutcome A).

Lemma retryLoop_calls (remaining : nat) :
  forall attempt waits,
    (attempt < retryCalls (retryLoop request attempt remaining waits)
       <= attempt + remaining + 1)%nat.
Proof.
  induction remaining as [|r IH]; intros attempt waits; cbn [retryLoop];
    destruct (request attempt) as [d|st]; cbn; try lia.
  destruct (isRateLimit st); cbn; [|lia].
  specialize (IH (S attempt) (waits ++ [2 ^ (Z.of_nat attempt + 1) * 1000])). lia.
Qed.

Lemma retryLoop_waits (remaining : nat) :
  forall attempt waits,
    sumZ (retryWaits (retryLoop request attempt remaining waits)) =
    sumZ waits
    + (2 ^ Z.of_nat (retryCalls (retryLoop request attempt remaining waits))
       - 2 ^ (Z.of_nat attempt + 1)) * 1000.
Proof.
  induction remaining as [|r IH]; intros attempt waits; cbn [retryLoop];
    destruct (request attempt) as [d|st]; cbn [retryWaits retryCalls];
    try (rewrite Nat2Z.inj_succ, <- Z.add_1_r; lia).
  destruct (isRateLimit st); cbn [retryWaits retryCalls];
    [|rewrite Nat2Z.inj_succ, <- Z.add_1_r; lia].
  rewrite IH, sumZ_app. cbn [sumZ].
  rewrite Nat2Z.inj_succ, <- !Z.add_1_r.
  rewrite (Z.pow_add_r 2 (Z.of_nat attempt + 1) 1) by lia. lia.
Qed.

Lemma retryLoop_outcome (remaining : nat) :
  forall attempt waits,
    let run := retryLoop request attempt remaining waits in
    retryOutcome run = request (retryCalls run - 1)%nat
    /\ (forall k, (attempt <= k < retryCalls run - 1)%nat ->
                  request k = ApiError (Some 429))
    /\ (forall st, retryOutcome run = ApiError st -> isRateLimit st = true ->
                   retryCalls run = (attempt + remaining + 1)%nat).
Proof.
  induction remaining as [|r IH]; intros attempt waits; cbn [retryLoop].
  - destruct (request attempt) as [d|st] eqn:E; cbn;
      rewrite Nat.sub_0_r; (split; [now rewrite E|]); (split; [lia|]).
    + discriminate.
    + intros; lia.
  - destruct (request attempt) as [d|st] eqn:E.
    + cbn. rewrite Nat.sub_0_r. split; [now rewrite E|]. split; [lia | discriminate].
    + destruct (isRateLimit st) eqn:Er.
      * specialize (IH (S attempt) (waits ++ [2 ^ (Z.of_nat attempt + 1) * 1000])).
        cbv zeta in IH. destruct IH as [H1 [H2 H3]].
        pose proof (retryLoop_calls r (S attempt)
                      (waits ++ [2 ^ (Z.of_nat attempt + 1) * 1000])) as Hc.
        cbv zeta. split; [exact H1|]. split.
        -- intros k Hk. destruct (Nat.eq_dec k attempt) as [->|Hne].
           ++ rewrite E. destruct st as [z|]; [|discriminate].
              cbn in Er. apply Z.eqb_eq in Er. now subst.
           ++ apply H2. lia.
        -- intros st' Ho Hr. rewrite (H3 st' Ho Hr). lia.
      * cbn. rewrite Nat.sub_0_r. split; [now rewrite E|]. split; [lia|].
        intros st' Ho Hr. injection Ho as <-. congruence.
Qed.
End RetryFacts.

(** X3: [hubspotApiWithRetry] makes at least one and at most
    [maxRetries + 1] requests; after [n] requests it has paused
    [(2^n - 2) * 1000] ms in all, hence never more than
    [(2^(maxRetries + 1) - 2) * 1000] ms. *)
Theorem hubspotApiWithRetry_bounded
    (A : Type) (request : nat -> ApiOutcome A) (maxRetries : nat) :
  (1 <= retryCalls (hubspotApiWithRetry request maxRetries) <= maxRetries + 1)%nat
  /\ sumZ (retryWaits (hubspotApiWithRetry request maxRetries))
     = (2 ^ Z.of_nat (retryCalls (hubspotApiWithRetry request maxRetries)) - 2) * 1000
  /\ sumZ (retryWaits (hubspotApiWithRetry request maxRetries))
     <= (2 ^ (Z.of_nat maxRetries + 1) - 2) * 1000.
Proof.
  unfold hubspotApiWithRetry.
  pose proof (retryLoop_calls request maxRetries 0 []) as Hc.
  pose proof (retryLoop_waits request maxRetries 0 []) as Hw.
  cbn [sumZ Z.of_nat Z.add] in Hw. change (2 ^ 1) with 2 in Hw.
  split; [lia|]. split; [lia|].
  rewrite Hw.
  assert (2 ^ Z.of_nat (retryCalls (retryLoop request 0 maxRetries []))
          <= 2 ^ (Z.of_nat maxRetries + 1)) by (apply Z.pow_le_mono_r; lia).
  lia.
Qed.

(** X4: the result of [hubspotApiWithRetry] is what its last request did;
    every request before the last one failed with status 429; and a 429 is
    only passed on to the caller after [maxRetries + 1] requests. *)
Theorem hubspotApiWithRetry_outcome
    (A : Type) (request : nat -> ApiOutcome A) (maxRetries : nat) :
  retryOutcome (hubspotApiWithRetry request maxRetries)
  = request (retryCalls (hubspotApiWithRetry request maxRetries) - 1)%nat
  /\ (forall k, (k < retryCalls (hubspotApiWithRetry request maxRetries) - 1)%nat ->
                request k = ApiError (Some 429))
  /\ (retryOutcome (hubspotApiWithRetry request maxRetries) = ApiError (Some 429) ->
      retryCalls (hubspotApiWithRetry request maxRetries) = (maxRetries + 1)%nat).
Proof.
  unfold hubspotApiWithRetry.
  destruct (retryLoop_outcome request maxRetries 0 []) as [H1 [H2 H3]].
  split; [exact H1|]. split.
  - intros k Hk. apply H2. lia.
  - intros Ho. now rewrite (H3 _ Ho eq_refl).
Qed.

(** ** Sorting by timestamp *)

Lemma insertSorted_inTimeOrder (x : HistoryEntry) (l : list HistoryEntry) :
  inTimeOrder l -> inTimeOrder (JS.insertSorted laterThan x l).
Proof.
  unfold inTimeOrder.
  induction 1 as [|y l Hl IH Hy]; cbn.
  - repeat constructor.
  - unfold laterThan at 1. destruct (Z.ltb_spec (tsNumber y) (tsNumber x)) as [Hlt|Hge].
    + constructor; [exact IH|].
      rewrite Forall_forall in *. intros z Hz.
      apply (Permutation_in _ (insertSorted_perm laterThan x l)) in Hz.
      destruct Hz as [<-|Hz]; [lia | now apply Hy].
    + constructor; [now constructor|].
      constructor; [assumption|].
      rewrite Forall_forall in *. intros z Hz. specialize (Hy z Hz). lia.
Qed.

Lemma sortByTimestamp_inTimeOrder (l : list HistoryEntry) :
  inTimeOrder (sortByTimestamp l).
Proof.
  unfold sortByTimestamp, JS.sort.
  induction l as [|x l IH]; cbn.
  - constructor.
  - now apply insertSorted_inTimeOrder.
Qed.

Lemma insertSorted_same_time (t : Z) (x : HistoryEntry) (l : list HistoryEntry) :
  inTimeOrder l ->
  filter (fun e => tsNumber e =? t) (JS.insertSorted laterThan x l) =
  filter (fun e => tsNumber e =? t) (x :: l).
Proof.
  unfold inTimeOrder.
  induction 1 as [|y l Hl IH Hy]; [reflexivity|].
  cbn [JS.insertSorted]. unfold laterThan at 1.
  destruct (Z.ltb_spec (tsNumber y) (tsNumber x)) as [Hlt|Hge]; [|reflexivity].
  cbn [filter] in *. rewrite IH.
  destruct (Z.eqb_spec (tsNumber x) t) as [Hx|Hx]; [|reflexivity].
  destruct (Z.eqb_spec (tsNumber y) t) as [Hy'|Hy']; [lia | reflexivity].
Qed.

(** X5: the history a path is built from is sorted by [sortByTimestamp]
    into non-decreasing timestamp order, nothing is lost or added, and the
    entries that share a timestamp keep the order they had in the input
    (the sort is stable). *)
Theorem sortByTimestamp_stable (l : list HistoryEntry) (t : Z) :
  inTimeOrder (sortByTimestamp l)
  /\ Permutation (sortByTimestamp l) l
  /\ filter (fun e => tsNumber e =? t) (sortByTimestamp l)
     = filter (fun e => tsNumber e =? t) l.
Proof.
  split; [apply sortByTimestamp_inTimeOrder|].
  split; [apply sort_perm|].
  unfold sortByTimestamp, JS.sort.
  induction l as [|x l IH]; [reflexivity|].
  cbn [fold_right].
  rewrite insertSorted_same_time by apply sortByTimestamp_inTimeOrder.
  cbn [filter]. fold (JS.sort laterThan l). unfold JS.sort. now rewrite IH.
Qed.

Lemma inTimeOrder_unique (l1 : list HistoryEntry) :
  forall l2,
    inTimeOrder l1 -> inTimeOrder l2 -> Permutation l1 l2 ->
    NoDup (map tsNumber l1) -> l1 = l2.
Proof.
  unfold inTimeOrder.
  induction l1 as [|a l1 IH]; intros l2 S1 S2 P N.
  - apply Permutation_nil in P. now subst.
  - destruct l2 as [|b l2]; [symmetry in P; now apply Permutation_nil in P|].
    inversion S1 as [|? ? S1' F1]; inversion S2 as [|? ? S2' F2]; subst.
    inversion N as [|? ? Na N']; subst.
    rewrite Forall_forall in F1, F2.
    assert (a = b) as ->.
    { assert (In a (b :: l2)) as Ha by (apply (Permutation_in _ P); now left).
      assert (In b (a :: l1)) as Hb
          by (apply (Permutation_in _ (Permutation_sym P)); now left).
      destruct Ha as [Ha|Ha]; [now symmetry|].
      destruct Hb as [Hb|Hb]; [assumption|].
      exfalso. apply Na.
      specialize (F1 b Hb). specialize (F2 a Ha).
      replace (tsNumber a) with (tsNumber b) by lia.
      now apply in_map. }
    f_equal. apply IH; try assumption.
    now apply Permutation_cons_inv in P.
Qed.

Lemma distinct_times_filter (keep : HistoryEntry -> bool) (history : list HistoryEntry) :
  NoDup (map tsNumber history) -> NoDup (map tsNumber (filter keep history)).
Proof.
  induction history as [|e rest IH]; intros Hdistinct; cbn; [constructor|].
  inversion Hdistinct as [|? ? Hfresh Hrest]; subst.
  destruct (keep e); cbn; [|now apply IH].
  constructor; [|now apply IH].
  rewrite in_map_iff. intros [e' [Hsame Hin]].
  apply filter_In in Hin. apply Hfresh.
  rewrite <- Hsame. apply in_map. tauto.
Qed.

Lemma filter_perm {A : Type} (p : A -> bool) (l l' : list A) :
  Permutation l l' -> Permutation (filter p l) (filter p l').
Proof.
  induction 1 as [|x l l' _ IH|x y l|l l' l'' _ IH1 _ IH2]; cbn.
  - constructor.
  - destruct (p x); [now constructor | assumption].
  - destruct (p x), (p y); try reflexivity. apply perm_swap.
  - now transitivity (filter p l').
Qed.

(** X6: when the timestamps of the history are pairwise distinct,
    [buildConversionPath] does not depend on the order in which the
    entries are listed. *)
Theorem buildConversionPath_permutation
    (S S' : list HistoryEntry) (t : Z) (lookbackDays : option Z) :
  Permutation S S' ->
  NoDup (map tsNumber S) ->
  buildConversionPath S t lookbackDays = buildConversionPath S' t lookbackDays.
Proof.
  intros P N.
  assert (windowEntries S t lookbackDays = windowEntries S' t lookbackDays) as E.
  { unfold windowEntries.
    apply inTimeOrder_unique; try apply sortByTimestamp_inTimeOrder.
    - unfold sortByTimestamp.
      rewrite !sort_perm. now apply filter_perm.
    - apply (Permutation_NoDup
               (l := map tsNumber (filter (inWindow t lookbackDays) S))).
      + apply Permutation_map. symmetry. apply sort_perm.
      + now apply distinct_times_filter. }
  unfold buildConversionPath. now rewrite E.
Qed.

Lemma buildConversionPath_permutation_witness :
  buildConversionPath
    [entry 300 "DIRECT_TRAFFIC"; entry 100 "ORGANIC_SEARCH"; entry 200 "PAID_SEARCH"]
    400 (Some 90)
  = buildConversionPath
      [entry 100 "ORGANIC_SEARCH"; entry 200 "PAID_SEARCH"; entry 300 "DIRECT_TRAFFIC"]
      400 (Some 90).
Proof.
  apply buildConversionPath_permutation.
  - apply (Permutation_cons_append [_; _]).
  - cbn. repeat constructor; cbn; intuition discriminate.
Defined.

(** ** getConversionTimestamp *)

Section EarliestFoldFacts.
Context {X R : Type} (key : X -> option Z) (build : X -> Z -> R) (tsOf : R -> Z).
Hypothesis tsOf_build : forall x ts, tsOf (build x ts) = ts.

(** What a "keep the earliest" loop started from nothing ends with: nothing
    when no item offers a timestamp, else the record of the first item
    that offers the least timestamp. *)
Lemma earliest_fold (items : list X) :
  match fold_left (earliestStep key build tsOf) items None with
  | None => forall x, In x items -> key x = None
  | Some r =>
      exists pre x post,
        items = pre ++ x :: post
        /\ key x = Some (tsOf r)
        /\ r = build x (tsOf r)
        /\ (forall y ts, In y pre -> key y = Some ts -> tsOf r < ts)
        /\ (forall y ts, In y post -> key y = Some ts -> tsOf r <= ts)
  end.
Proof.
  induction items as [|x items IH] using rev_ind; [intros x []|].
  rewrite fold_left_app. cbn [fold_left].
  destruct (fold_left (earliestStep key build tsOf) items None) as [r|];
    unfold earliestStep at 1; destruct (key x) as [ts|] eqn:Ek; cbn [option_map earlierThan].
  - destruct IH as [pre [x0 [post [-> [Hk [Hr [Hpre Hpost]]]]]]].
    destruct (Z.ltb_spec ts (tsOf r)) as [Hlt|Hge].
    + exists (pre ++ x0 :: post), x, []. rewrite tsOf_build.
      repeat split; try assumption; try reflexivity.
      * intros y ts' Hy Hky. apply in_app_iff in Hy. destruct Hy as [Hy|[<-|Hy]].
        -- specialize (Hpre y ts' Hy Hky). lia.
        -- rewrite Hk in Hky. injection Hky as <-. lia.
        -- specialize (Hpost y ts' Hy Hky). lia.
      * intros y ts' [].
    + exists pre, x0, (post ++ [x]). rewrite <- app_assoc.
      repeat split; try assumption.
      intros y ts' Hy Hky. apply in_app_iff in Hy. destruct Hy as [Hy|[<-|[]]].
      * now apply (Hpost y).
      * rewrite Ek in Hky. injection Hky as <-. assumption.
  - destruct IH as [pre [x0 [post [-> [Hk [Hr [Hpre Hpost]]]]]]].
    exists pre, x0, (post ++ [x]). rewrite <- app_assoc.
    repeat split; try assumption.
    intros y ts' Hy Hky. apply in_app_iff in Hy. destruct Hy as [Hy|[<-|[]]].
    + now apply (Hpost y).
    + congruence.
  - exists items, x, []. rewrite tsOf_build.
    repeat split; try assumption; try reflexivity.
    + intros y ts' Hy Hky. rewrite (IH y Hy) in Hky. discriminate.
    + intros y ts' [].
  - intros y Hy. apply in_app_iff in Hy. destruct Hy as [Hy|[<-|[]]]; auto.
Qed.
End EarliestFoldFacts.

Lemma fold_left_ext {A B : Type} (f g : A -> B -> A) (l : list B) (a : A) :
  (forall a b, f a b = g a b) -> fold_left f l a = fold_left g l a.
Proof.
  intros H. revert a. induction l as [|b l IH]; intros a; cbn; [reflexivity|].
  now rewrite H, IH.
Qed.

Section ConversionLocatorFacts.
Variable parseDate : string -> option Z.
Variable parseFloat : string -> float.

Lemma meetingStep_earliest (earliestTs : option Z) (fetched : option Meeting) :
  meetingStep parseDate earliestTs fetched =
  earliestStep (meetingKey parseDate) (fun _ ts => ts) (fun ts => ts) earliestTs fetched.
Proof.
  unfold meetingStep, earliestStep, meetingKey.
  destruct fetched as [m|]; [|reflexivity].
  destruct (meetingDate parseDate m); [|reflexivity].
  now destruct earliestTs.
Qed.

Lemma dealCreatedStep_earliest (earliest : option ConversionResult) (fetched : option Deal) :
  dealCreatedStep parseDate parseFloat earliest fetched =
  earliestStep (dealCreatedKey parseDate) (dealCreatedBuild parseFloat) crTimestamp
               earliest fetched.
Proof.
  unfold dealCreatedStep, earliestStep, dealCreatedKey, dealCreatedBuild, earliestTimestamp.
  destruct fetched as [d|]; [|reflexivity].
  destruct (dealDate parseDate d); reflexivity.
Qed.

Lemma closedWonStep_earliest (stages : list string)
    (earliest : option ConversionResult) (fetched : option Deal) :
  closedWonStep parseDate parseFloat stages earliest fetched =
  earliestStep (closedWonKey parseDate stages) (closedWonBuild parseDate parseFloat stages)
               crTimestamp earliest fetched.
Proof.
  unfold closedWonStep, earliestStep, closedWonKey, closedWonBuild, earliestTimestamp.
  destruct fetched as [d|]; [|reflexivity].
  destruct (inClosedWonStage stages d); [|reflexivity].
  destruct (dealClosedWonTime parseDate stages d) as [[ts|] approx]; cbn [fst snd];
    [|reflexivity].
  destruct (ts =? 0); reflexivity.
Qed.

(** X7: for [meeting_booked], [getConversionTimestamp] returns the least
    valid date among the contact's meetings that could be fetched, with
    value 0 and no currency; it returns nothing exactly when no fetched
    meeting has a valid date. *)
Theorem meeting_booked_earliest (closedWonStages : list string) (contact : ContactData) :
  match getConversionTimestamp parseDate parseFloat closedWonStages
                               "meeting_booked" contact with
  | Some r =>
      crValue r = 0%float /\ crCurrency r = None
      /\ exists meetings m,
           meetingAssociations contact = Some meetings
           /\ In (Some m) meetings
           /\ meetingDate parseDate m = Some (crTimestamp r)
           /\ forall m' ts, In (Some m') meetings ->
                            meetingDate parseDate m' = Some ts -> crTimestamp r <= ts
  | None =>
      forall meetings m,
        meetingAssociations contact = Some meetings ->
        In (Some m) meetings -> meetingDate parseDate m = None
  end.
Proof.
  change (getConversionTimestamp parseDate parseFloat closedWonStages
                                 "meeting_booked" contact)
    with (meetingBooked parseDate (meetingAssociations contact)).
  unfold meetingBooked.
  destruct (meetingAssociations contact) as [meetings|]; [|discriminate].
  pose proof (earliest_fold (meetingKey parseDate) (fun _ ts => ts) (fun ts => ts)
                            (fun _ _ => eq_refl) meetings) as H.
  rewrite <- (fold_left_ext _ _ _ _ meetingStep_earliest) in H.
  destruct meetings as [|m0 ms]; [intros ? ? [= <-] []|].
  destruct (fold_left (meetingStep parseDate) (m0 :: ms) None) as [ts|].
  - destruct H as [pre [x [post [E [Hk [_ [Hpre Hpost]]]]]]].
    cbn [crValue crCurrency crTimestamp]. split; [reflexivity|]. split; [reflexivity|].
    destruct x as [m|]; [|discriminate].
    exists (m0 :: ms), m. split; [reflexivity|]. rewrite E.
    split; [apply in_elt|]. split; [exact Hk|].
    intros m' ts' Hin Hd. apply in_app_iff in Hin. destruct Hin as [Hin|[Hin|Hin]].
    + specialize (Hpre (Some m') ts' Hin Hd). lia.
    + injection Hin as <-. cbn in Hk. rewrite Hk in Hd. injection Hd as <-. lia.
    + exact (Hpost (Some m') ts' Hin Hd).
  - intros meetings m [= <-] Hin. exact (H (Some m) Hin).
Qed.

(** X8: for [deal_created], [getConversionTimestamp] returns the creation
    date, amount and currency of the first fetched deal whose creation date
    is the least one: strictly earlier than every deal listed before it and
    no later than any deal listed after it.  It returns nothing exactly
    when no fetched deal has a valid creation date. *)
Theorem deal_created_earliest (closedWonStages : list string) (contact : ContactData) :
  match getConversionTimestamp parseDate parseFloat closedWonStages
                               "deal_created" contact with
  | Some r =>
      exists pre d post,
        dealAssociations contact = Some (pre ++ Some d :: post)
        /\ dealDate parseDate d = Some (crTimestamp r)
        /\ r = mkConversionResult (crTimestamp r) (dealValue parseFloat d)
                                  (dealCurrency d) false
        /\ (forall d' ts, In (Some d') pre -> dealDate parseDate d' = Some ts ->
                          crTimestamp r < ts)
        /\ (forall d' ts, In (Some d') post -> dealDate parseDate d' = Some ts ->
                          crTimestamp r <= ts)
  | None =>
      forall deals d,
        dealAssociations contact = Some deals ->
        In (Some d) deals -> dealDate parseDate d = None
  end.
Proof.
  change (getConversionTimestamp parseDate parseFloat closedWonStages
                                 "deal_created" contact)
    with (dealCreated parseDate parseFloat (dealAssociations contact)).
  unfold dealCreated.
  destruct (dealAssociations contact) as [deals|]; [|discriminate].
  pose proof (earliest_fold (dealCreatedKey parseDate) (dealCreatedBuild parseFloat)
                            crTimestamp) as H.
  specialize (H ltac:(intros [d|] ts; reflexivity) deals).
  rewrite <- (fold_left_ext _ _ _ _ dealCreatedStep_earliest) in H.
  destruct deals as [|d0 ds]; [intros ? ? [= <-] []|].
  destruct (fold_left (dealCreatedStep parseDate parseFloat) (d0 :: ds) None) as [r|].
  - destruct H as [pre [x [post [E [Hk [Hr [Hpre Hpost]]]]]]].
    destruct x as [d|]; [|discriminate].
    exists pre, d, post. rewrite E. repeat split; try assumption.
    + intros d' ts Hin Hd. exact (Hpre (Some d') ts Hin Hd).
    + intros d' ts Hin Hd. exact (Hpost (Some d') ts Hin Hd).
  - intros deals d [= <-] Hin. exact (H (Some d) Hin).
Qed.
End ConversionLocatorFacts.

Lemma find_inTimeOrder (p : HistoryEntry -> bool) (l : list HistoryEntry) (e : HistoryEntry) :
  inTimeOrder l -> find p l = Some e ->
  In e l /\ p e = true
  /\ forall e', In e' l -> p e' = true -> tsNumber e <= tsNumber e'.
Proof.
  unfold inTimeOrder.
  induction 1 as [|x l Hl IH Hx]; cbn; [discriminate|].
  destruct (p x) eqn:Ep.
  - intros [= <-]. split; [now left|]. split; [assumption|].
    rewrite Forall_forall in Hx.
    intros e' [<-|Hin] _; [lia | now apply Hx].
  - intros Hf. destruct (IH Hf) as [Hin [Hp Hmin]].
    split; [now right|]. split; [assumption|].
    intros e' [<-|Hin'] Hp'; [congruence | now apply Hmin].
Qed.

Section ClosedWonFacts.
Variable parseDate : string -> option Z.
Variable parseFloat : string -> float.

(** X9: the time [getConversionTimestamp] takes for one deal in the
    [closed_won] case.  When it is not flagged approximate it is the
    timestamp of a stage-history entry that enters a closed-won stage, and
    no entry of the history enters a closed-won stage earlier.  When it is
    flagged approximate the deal has a close date and the time is that
    date. *)
Theorem dealClosedWonTime_exact_or_approximate
    (closedWonStages : list string) (d : Deal) :
  match dealClosedWonTime parseDate closedWonStages d with
  | (Some ts, false) =>
      exists history e,
        dealstageHistory d = Some history
        /\ In e history
        /\ entersClosedWon closedWonStages e = true
        /\ timestamp e = Some ts
        /\ forall e', In e' history -> entersClosedWon closedWonStages e' = true ->
                      ts <= tsNumber e'
  | (None, false) => jsTruthy (closedate d) = false
  | (time, true) =>
      jsTruthy (closedate d) = true /\ time = dateOf parseDate (closedate d)
  end.
Proof.
  unfold dealClosedWonTime.
  destruct (find (entersClosedWon closedWonStages)
                 (sortByTimestamp match dealstageHistory d with
                                  | Some h => h
                                  | None => []
                                  end)) as [e|] eqn:Ef.
  - apply find_inTimeOrder in Ef; [|apply sortByTimestamp_inTimeOrder].
    destruct Ef as [Hin [Hp Hmin]].
    unfold sortByTimestamp in Hin. apply sort_In in Hin.
    destruct (timestamp e) as [ts|] eqn:Et.
    + destruct (ts =? 0) eqn:E0; cbn [andb].
      * destruct (jsTruthy (closedate d)) eqn:Ec.
        -- destruct (dateOf parseDate (closedate d)); now split.
        -- destruct (dealstageHistory d) as [h|]; [|destruct Hin].
           exists h, e. repeat split; try assumption.
           intros e' Hin' Hp'.
           replace ts with (tsNumber e) by (unfold tsNumber; now rewrite Et).
           apply Hmin; [|assumption].
           unfold sortByTimestamp. now apply sort_In.
      * destruct (dealstageHistory d) as [h|]; [|destruct Hin].
        exists h, e. repeat split; try assumption.
        intros e' Hin' Hp'.
        replace ts with (tsNumber e) by (unfold tsNumber; now rewrite Et).
        apply Hmin; [|assumption].
        unfold sortByTimestamp. now apply sort_In.
    + cbn [andb]. destruct (jsTruthy (closedate d)) eqn:Ec; [|reflexivity].
      destruct (dateOf parseDate (closedate d)); now split.
  - cbn [andb]. destruct (jsTruthy (closedate d)) eqn:Ec; [|reflexivity].
    destruct (dateOf parseDate (closedate d)); now split.
Qed.

(** X10: for [closed_won], the result of [getConversionTimestamp] comes
    from a fetched deal that is currently in a closed-won stage; its
    timestamp is that deal's closed-won time, is not 0, and is the least
    among the deals currently in a closed-won stage that have a usable
    time, the first such deal winning a tie; [approximate], value and
    currency are that deal's.  With no closed-won stage known the result is
    nothing. *)
Theorem closed_won_earliest (closedWonStages : list string) (contact : ContactData) :
  match getConversionTimestamp parseDate parseFloat closedWonStages
                               "closed_won" contact with
  | Some r =>
      crTimestamp r <> 0
      /\ exists pre d post,
           dealAssociations contact = Some (pre ++ Some d :: post)
           /\ inClosedWonStage closedWonStages d = true
           /\ dealClosedWonTime parseDate closedWonStages d
              = (Some (crTimestamp r), crApproximate r)
           /\ crValue r = dealValue parseFloat d
           /\ crCurrency r = dealCurrency d
           /\ (forall d' ts,
                  In (Some d') pre -> inClosedWonStage closedWonStages d' = true ->
                  fst (dealClosedWonTime parseDate closedWonStages d') = Some ts ->
                  ts <> 0 -> crTimestamp r < ts)
           /\ (forall d' ts,
                  In (Some d') post -> inClosedWonStage closedWonStages d' = true ->
                  fst (dealClosedWonTime parseDate closedWonStages d') = Some ts ->
                  ts <> 0 -> crTimestamp r <= ts)
  | None =>
      closedWonStages = []
      \/ forall deals d ts,
           dealAssociations contact = Some deals ->
           In (Some d) deals -> inClosedWonStage closedWonStages d = true ->
           fst (dealClosedWonTime parseDate closedWonStages d) = Some ts -> ts = 0
  end.
Proof.
  change (getConversionTimestamp parseDate parseFloat closedWonStages
                                 "closed_won" contact)
    with (closedWon parseDate parseFloat closedWonStages (dealAssociations contact)).
  unfold closedWon.
  destruct closedWonStages as [|s0 stages]; [now left|].
  set (S := s0 :: stages).
  assert (forall d' ts,
             inClosedWonStage S d' = true ->
             fst (dealClosedWonTime parseDate S d') = Some ts -> ts <> 0 ->
             closedWonKey parseDate S (Some d') = Some ts) as Hkey.
  { intros d' ts Hs Ht Hz. unfold closedWonKey. rewrite Hs, Ht.
    destruct (Z.eqb_spec ts 0); [contradiction | reflexivity]. }
  destruct (dealAssociations contact) as [deals|]; [|right; discriminate].
  pose proof (earliest_fold (closedWonKey parseDate S)
                            (closedWonBuild parseDate parseFloat S) crTimestamp) as H.
  specialize (H ltac:(intros [d|] ts; reflexivity) deals).
  rewrite <- (fold_left_ext _ _ _ _ (closedWonStep_earliest parseDate parseFloat S)) in H.
  destruct deals as [|d0 ds]; [right; intros ? ? ? [= <-] []|].
  destruct (fold_left (closedWonStep parseDate parseFloat S) (d0 :: ds) None) as [r|].
  - destruct H as [pre [x [post [E [Hk [Hr [Hpre Hpost]]]]]]].
    destruct x as [d|]; [|discriminate].
    unfold closedWonKey in Hk.
    destruct (inClosedWonStage S d) eqn:Es; [|discriminate].
    destruct (dealClosedWonTime parseDate S d) as [time approx] eqn:Et.
    cbn [fst] in Hk. destruct time as [ts|]; [|discriminate].
    destruct (Z.eqb_spec ts 0) as [|Hz]; [discriminate|].
    injection Hk as Hk. subst ts.
    unfold closedWonBuild in Hr. rewrite Et in Hr. cbn [snd] in Hr.
    pose proof (f_equal crApproximate Hr) as Ha.
    pose proof (f_equal crValue Hr) as Hv.
    pose proof (f_equal crCurrency Hr) as Hc.
    cbn [crApproximate crValue crCurrency] in Ha, Hv, Hc.
    split; [assumption|].
    exists pre, d, post. rewrite E.
    split; [reflexivity|]. split; [exact Es|].
    split; [rewrite Ha; exact Et|].
    split; [assumption|].
    split; [assumption|].
    split.
    + intros d' ts Hin Hs Ht Hnz. apply (Hpre (Some d') ts Hin). now apply Hkey.
    + intros d' ts Hin Hs Ht Hnz. apply (Hpost (Some d') ts Hin). now apply Hkey.
  - right. intros deals d ts [= <-] Hin Hs Ht.
    destruct (Z.eq_dec ts 0) as [|Hnz]; [assumption|].
    specialize (Hkey d ts Hs Ht Hnz). rewrite (H (Some d) Hin) in Hkey. discriminate.
Qed.
End ClosedWonFacts.

(** ** The contribution job *)

Lemma contactStep_fold (portalId : string) (contacts : list ContactCall) :
  forall job,
    let job' := fold_left (contactStep portalId) contacts job in
    processed job' = (processed job + List.length contacts)%nat
    /\ failed job' = (failed job + countIf callFails contacts)%nat
    /\ skippedNoHistory job' = (skippedNoHistory job + countIf hasNoHistory contacts)%nat
    /\ (updated job' + failed job' + skippedNoHistory job'
        = updated job + failed job + skippedNoHistory job + List.length contacts)%nat.
Proof.
  unfold countIf.
  induction contacts as [|c contacts IH]; intros job; cbn [fold_left].
  - cbn. lia.
  - specialize (IH (contactStep portalId job c)). cbv zeta in IH |- *.
    destruct IH as [H1 [H2 [H3 H4]]].
    assert (processed (contactStep portalId job c) = S (processed job)
            /\ failed (contactStep portalId job c)
               = (failed job + if callFails c then 1 else 0)%nat
            /\ skippedNoHistory (contactStep portalId job c)
               = (skippedNoHistory job + if hasNoHistory c then 1 else 0)%nat
            /\ (updated (contactStep portalId job c) + failed (contactStep portalId job c)
                + skippedNoHistory (contactStep portalId job c)
                = S (updated job + failed job + skippedNoHistory job))%nat)
      as [S1 [S2 [S3 S4]]].
    { unfold contactStep, processContact, callFails, hasNoHistory.
      destruct (fetchedHistory c) as [h|]; [|cbn; lia].
      destruct (patchSucceeds c); [|cbn; lia].
      rewrite computeMarketingContribution_counts.
      cbn [totalChanges contributionOf andb negb].
      destruct (countIf countsInTotal h); cbn; lia. }
    cbn [filter].
    destruct (callFails c), (hasNoHistory c); cbn [List.length]; lia.
Qed.

(** X11: when the contribution job has gone through its contacts,
    [processed] is their number and equals
    [updated + failed + skippedNoHistory]; [failed] counts the contacts for
    which a request threw, and [skippedNoHistory] those processed without
    error whose history has no non-empty value, whatever the marketing
    sources configured at the time. *)
Theorem runContributionJob_counters (portalId : string) (contacts : list ContactCall) :
  processed (runContributionJob portalId contacts) = List.length contacts
  /\ processed (runContributionJob portalId contacts)
     = (updated (runContributionJob portalId contacts)
        + failed (runContributionJob portalId contacts)
        + skippedNoHistory (runContributionJob portalId contacts))%nat
  /\ failed (runContributionJob portalId contacts) = countIf callFails contacts
  /\ skippedNoHistory (runContributionJob portalId contacts)
     = countIf hasNoHistory contacts.
Proof.
  unfold runContributionJob.
  destruct (contactStep_fold portalId contacts (mkCounters 0 0 0 0)) as [H1 [H2 [H3 H4]]].
  cbn in H1, H2, H3, H4. repeat split; lia.
Qed.

(** ** Marketing sources and the analysis gate *)

Lemma configGet_set (config : PortalConfig) (portalId key : string) (v : PortalEntry) :
  configGet (configSet config portalId v) key =
  if (portalId =? key)%string then Some v else configGet config key.
Proof.
  unfold configSet. cbn [configGet].
  destruct (String.eqb_spec portalId key) as [->|Hne]; [reflexivity|].
  induction config as [|[k e] config IH]; cbn; [reflexivity|].
  destruct (String.eqb_spec k portalId) as [->|Hk]; cbn.
  - destruct (String.eqb_spec portalId key); [contradiction | exact IH].
  - destruct (k =? key)%string; [reflexivity | exact IH].
Qed.

Lemma add_NoDup (s : list string) (x : string) : NoDup s -> NoDup (JS.add s x).
Proof.
  intros N. unfold JS.add. destruct (JS.has s x) eqn:E; [assumption|].
  apply NoDup_app; [assumption | repeat constructor; intros [] |].
  intros y Hy [<-|[]]. apply has_true in Hy. congruence.
Qed.

Lemma fold_add_In (l : list string) :
  forall acc x, In x (fold_left JS.add l acc) <-> In x acc \/ In x l.
Proof.
  induction l as [|y l IH]; intros acc x; cbn [fold_left].
  - cbn. tauto.
  - rewrite IH, add_In. cbn. intuition congruence.
Qed.

Lemma fold_add_NoDup (l : list string) :
  forall acc, NoDup acc -> NoDup (fold_left JS.add l acc).
Proof.
  induction l as [|y l IH]; intros acc N; cbn [fold_left]; [assumption|].
  apply IH. now apply add_NoDup.
Qed.

Lemma setOf_In (l : list string) (x : string) : In x (setOf l) <-> In x l.
Proof. unfold setOf. rewrite fold_add_In. cbn. tauto. Qed.

Lemma setOf_NoDup (l : list string) : NoDup (setOf l).
Proof. apply fold_add_NoDup. constructor. Qed.

(** X12: [POST /api/marketing-sources] either saves or leaves the
    configuration untouched.  It saves exactly when every selected source
    is one of [ALL_SOURCES]; afterwards [getMarketingSources] of that
    portal is the selection as a set, the other portals read as before,
    and the portal's last analysis run is kept.  Otherwise it reports the
    selected sources that are not valid. *)
Theorem postMarketingSources_round_trip
    (config : PortalConfig) (portalId : string)
    (selectedSources : option (list string)) (now : Z) :
  match postMarketingSources config portalId selectedSources now with
  | (SourcesSaved saved, config') =>
      selectedSources = Some saved
      /\ (forall s, In s saved -> In s ALL_SOURCE_VALUES)
      /\ (forall s, In s (getMarketingSources config' portalId) <-> In s saved)
      /\ NoDup (getMarketingSources config' portalId)
      /\ (forall other, other <> portalId ->
                        configGet config' other = configGet config other)
      /\ lastAnalysisRun (entryOrEmpty config' portalId)
         = lastAnalysisRun (entryOrEmpty config portalId)
      /\ updatedAt (entryOrEmpty config' portalId) = Some now
  | (SourcesInvalid invalid, config') =>
      config' = config
      /\ invalid <> []
      /\ exists selected,
           selectedSources = Some selected
           /\ forall s, In s invalid <-> In s selected /\ ~ In s ALL_SOURCE_VALUES
  | (SourcesNotAnArray, config') => config' = config /\ selectedSources = None
  end.
Proof.
  unfold postMarketingSources.
  destruct selectedSources as [selected|]; [|now split].
  destruct (filter (fun s => negb (JS.has ALL_SOURCE_VALUES s)) selected)
    as [|bad invalid] eqn:Ef.
  - assert (forall s, In s selected -> In s ALL_SOURCE_VALUES) as Hvalid.
    { intros s Hs. destruct (JS.has ALL_SOURCE_VALUES s) eqn:Eh.
      - now apply has_true.
      - assert (In s []) as [].
        rewrite <- Ef. apply filter_In. now rewrite Eh. }
    unfold getMarketingSources, entryOrEmpty.
    rewrite configGet_set, String.eqb_refl. cbn [portalMarketingSources lastAnalysisRun updatedAt].
    split; [reflexivity|]. split; [exact Hvalid|].
    split; [intros s; apply setOf_In|]. split; [apply setOf_NoDup|].
    split; [|now split].
    intros other Hne. rewrite configGet_set.
    destruct (String.eqb_spec portalId other); [congruence | reflexivity].
  - split; [reflexivity|]. split; [discriminate|].
    exists selected. split; [reflexivity|].
    intros s. rewrite <- Ef, filter_In, negb_true_iff.
    split; intros [H1 H2]; (split; [assumption|]).
    + intros Hin. apply has_true in Hin. congruence.
    + destruct (JS.has ALL_SOURCE_VALUES s) eqn:Eh; [|reflexivity].
      apply has_true in Eh. contradiction.
Qed.

(** The flag computed by the status handler against the test of the POST
    handler. *)
Lemma analysisAllowed_and_blocked (e : PortalEntry) :
  analysisBlocked e && analysisAllowed e = false
  /\ (negb (analysisAllowed e) && negb (analysisBlocked e) = true <->
      exists run,
        lastAnalysisRun e = Some run
        /\ (updatedAt e = None \/ updatedAt e = Some run)).
Proof.
  unfold analysisBlocked, analysisAllowed.
  destruct (lastAnalysisRun e) as [run|], (updatedAt e) as [upd|]; cbn.
  - destruct (Z.ltb_spec upd run) as [H1|H1], (Z.ltb_spec run upd) as [H2|H2]; cbn;
      try (exfalso; lia); (split; [reflexivity|]); split;
      try discriminate; try reflexivity;
      try (intros [r [[= <-] [H|[= ->]]]]; [discriminate | lia]).
    intros _. exists run. split; [reflexivity|]. right. f_equal. lia.
  - split; [reflexivity|]. split; [|reflexivity].
    intros _. exists run. now split; [|left].
  - split; [reflexivity|]. split; [discriminate|]. intros [r [[=] _]].
  - split; [reflexivity|]. split; [discriminate|]. intros [r [[=] _]].
Qed.

(** Both writers of the configuration keep [runHasResult]. *)
Lemma writers_keep_runHasResult
    (config : PortalConfig) (portalId : string)
    (selected : option (list string)) (now completedAt : Z) (job : JobCounters) :
  runHasResult (entryOrEmpty config portalId) ->
  runHasResult (entryOrEmpty (snd (postMarketingSources config portalId selected now)) portalId)
  /\ runHasResult (entryOrEmpty (completeJob config portalId completedAt job) portalId).
Proof.
  intros H.
  assert (forall v, entryOrEmpty (configSet config portalId v) portalId = v) as Hset.
  { intros v. unfold entryOrEmpty. now rewrite configGet_set, String.eqb_refl. }
  split.
  - unfold postMarketingSources. destruct selected as [sel|]; [|exact H].
    destruct (filter (fun s => negb (JS.has ALL_SOURCE_VALUES s)) sel); [|exact H].
    cbn [snd]. rewrite Hset. exact H.
  - unfold completeJob. rewrite Hset. unfold runHasResult. cbn. discriminate.
Qed.

(** X13: for a configuration the server wrote, the status endpoint never
    reports [analysisAllowed] for a portal whose POST would be blocked.
    With no job running the two disagree, the status saying no while a
    POST would start a job, exactly when the portal has run an analysis
    and its sources were either never saved or saved at the very instant
    of that run. *)
Theorem status_never_invites_blocked_run (job : option bool) (e : PortalEntry) :
  runHasResult e ->
  statusAnalysisAllowed job e && analysisBlocked e = false
  /\ (job <> Some true ->
      (negb (statusAnalysisAllowed job e) && negb (analysisBlocked e) = true <->
       exists run,
         lastAnalysisRun e = Some run
         /\ (updatedAt e = None \/ updatedAt e = Some run))).
Proof.
  intros Hinv.
  destruct (analysisAllowed_and_blocked e) as [H1 H2].
  assert (job <> Some true -> statusAnalysisAllowed job e = analysisAllowed e) as Hsame.
  { intros Hj. unfold statusAnalysisAllowed.
    destruct job as [[]|]; [contradiction | reflexivity|].
    unfold runHasResult in Hinv. unfold analysisAllowed.
    destruct (lastAnalysisRun e) as [run|]; [|reflexivity].
    destruct (lastAnalysisResult e); [reflexivity|].
    exfalso. now apply Hinv. }
  split.
  - destruct job as [[]|]; [reflexivity | |]; rewrite Hsame by discriminate;
      now rewrite andb_comm.
  - intros Hj. now rewrite (Hsame Hj).
Qed.

Lemma status_never_invites_blocked_run_witness :
  let e := mkPortalEntry None None (Some 1700000000000) (Some (mkCounters 120 100 5 15)) in
  statusAnalysisAllowed None e && analysisBlocked e = false
  /\ (None <> Some true ->
      (negb (statusAnalysisAllowed None e) && negb (analysisBlocked e) = true <->
       exists run,
         lastAnalysisRun e = Some run
         /\ (updatedAt e = None \/ updatedAt e = Some run))).
Proof.
  cbv zeta. apply status_never_invites_blocked_run.
  unfold runHasResult. cbn. discriminate.
Defined.

(** X14: saving a valid selection of marketing sources after the last
    analysis run opens the gate again: with no job running the status
    endpoint reports [analysisAllowed], whether or not the server still
    holds the finished job, and a POST is not blocked. *)
Theorem saving_sources_allows_analysis
    (config : PortalConfig) (portalId : string) (selected : list string) (now : Z) :
  (forall s, In s selected -> In s ALL_SOURCE_VALUES) ->
  (forall run, lastAnalysisRun (entryOrEmpty config portalId) = Some run -> run < now) ->
  statusAnalysisAllowed None
    (entryOrEmpty (snd (postMarketingSources config portalId (Some selected) now)) portalId)
  = true
  /\ statusAnalysisAllowed (Some false)
       (entryOrEmpty (snd (postMarketingSources config portalId (Some selected) now)) portalId)
     = true
  /\ analysisBlocked
       (entryOrEmpty (snd (postMarketingSources config portalId (Some selected) now)) portalId)
     = false.
Proof.
  intros Hvalid Hrun.
  unfold postMarketingSources.
  assert (filter (fun s => negb (JS.has ALL_SOURCE_VALUES s)) selected = []) as ->.
  { induction selected as [|s l IH]; [reflexivity|]. cbn [filter].
    assert (JS.has ALL_SOURCE_VALUES s = true) as ->
        by (apply has_true, Hvalid; now left).
    cbn [negb]. apply IH. intros x Hx. apply Hvalid. now right. }
  cbn [snd].
  assert (forall v, entryOrEmpty (configSet config portalId v) portalId = v) as Hset.
  { intros v. unfold entryOrEmpty. now rewrite configGet_set, String.eqb_refl. }
  rewrite !Hset.
  unfold statusAnalysisAllowed, analysisAllowed, analysisBlocked.
  cbn [lastAnalysisRun updatedAt lastAnalysisResult].
  destruct (lastAnalysisRun (entryOrEmpty config portalId)) as [run|];
    [|repeat split].
  specialize (Hrun run eq_refl).
  destruct (Z.ltb_spec run now), (Z.ltb_spec now run); try lia.
  destruct (lastAnalysisResult (entryOrEmpty config portalId)); repeat split.
Qed.

Lemma saving_sources_allows_analysis_witness :
  let config :=
    [("47955688", mkPortalEntry None None (Some 1700000000000)
                                (Some (mkCounters 120 100 5 15)))] in
  statusAnalysisAllowed None
    (entryOrEmpty
       (snd (postMarketingSources config "47955688"
               (Some ["PAID_SEARCH"; "REFERRALS"]) 1700000600000))
       "47955688")
  = true
  /\ statusAnalysisAllowed (Some false)
    (entryOrEmpty
       (snd (postMarketingSources config "47955688"
               (Some ["PAID_SEARCH"; "REFERRALS"]) 1700000600000))
       "47955688")
  = true
  /\ analysisBlocked
       (entryOrEmpty
          (snd (postMarketingSources config "47955688"
                  (Some ["PAID_SEARCH"; "REFERRALS"]) 1700000600000))
          "47955688")
     = false.
Proof.
  cbv zeta. apply saving_sources_allows_analysis.
  - intros s [<-|[<-|[]]]; cbn; tauto.
  - cbn. intros run [= <-]. lia.
Defined.

(** ** The path table *)

Lemma pcUpdate_keys (key : string) (f : PathRow -> PathRow) (pc : PathCounts) :
  map fst (pcUpdate key f pc) = map fst pc.
Proof.
  induction pc as [|[k r] pc IH]; cbn; [reflexivity|].
  destruct (k =? key)%string; cbn; [reflexivity | now rewrite IH].
Qed.

Lemma pcGet_None (pc : PathCounts) (key : string) :
  pcGet pc key = None <-> ~ In key (map fst pc).
Proof.
  induction pc as [|[k r] pc IH]; cbn; [tauto|].
  destruct (String.eqb_spec k key) as [->|Hne].
  - split; [discriminate | tauto].
  - rewrite IH. tauto.
Qed.

Lemma pcGet_In (pc : PathCounts) (key : string) (r : PathRow) :
  NoDup (map fst pc) -> (In (key, r) pc <-> pcGet pc key = Some r).
Proof.
  induction pc as [|[k r0] pc IH]; cbn; intros N; [split; [tauto | discriminate]|].
  inversion N as [|? ? Hk N']; subst.
  destruct (String.eqb_spec k key) as [->|Hne].
  - split.
    + intros [[= <-]|Hin]; [reflexivity|].
      exfalso. apply Hk. apply in_map_iff. now exists (key, r).
    + intros [= <-]. now left.
  - rewrite <- (IH N'). split; [intros [[= -> _]|H]; [contradiction | assumption] | tauto].
Qed.

Lemma accumulate_keys_NoDup (pc : PathCounts) (c : Conversion) :
  NoDup (map fst pc) -> NoDup (map fst (accumulate pc c)).
Proof.
  intros N. unfold accumulate. rewrite pcUpdate_keys.
  destruct (pcGet pc (pathToKey (convPath c))) eqn:E; [assumption|].
  rewrite map_app. cbn. apply NoDup_app; [assumption | repeat constructor; intros [] |].
  intros k Hk [<-|[]]. apply pcGet_None in E. contradiction.
Qed.

Lemma aggregate_keys_NoDup (cs : list Conversion) : NoDup (map fst (aggregate cs)).
Proof.
  unfold aggregate.
  assert (forall pc, NoDup (map fst pc) -> NoDup (map fst (fold_left accumulate cs pc))) as H.
  { induction cs as [|c cs IH]; intros pc N; cbn [fold_left]; [assumption|].
    apply IH. now apply accumulate_keys_NoDup. }
  apply H. constructor.
Qed.

Lemma bump_wellFormed (c : Conversion) (r : PathRow) (key : string) :
  key = pathToKey (path r) ->
  NoDup (currencies r) ->
  (forall cur, In cur (currencies r) -> cur <> EmptyString) ->
  rowWellFormed key (bump c r).
Proof.
  intros Hk Hn Ht. unfold rowWellFormed, bump. cbn [path conversions currencies].
  split; [assumption|]. split; [lia|].
  destruct (convCurrency c) as [cur|]; [|now split].
  destruct (JS.truthy cur) eqn:E; [|now split].
  split; [now apply add_NoDup|].
  intros x Hx. apply add_In in Hx. destruct Hx as [Hx| ->]; [now apply Ht|].
  now apply truthy_true.
Qed.

Lemma accumulate_wellFormed (pc : PathCounts) (c : Conversion) :
  (forall key r, pcGet pc key = Some r -> rowWellFormed key r) ->
  forall key r, pcGet (accumulate pc c) key = Some r -> rowWellFormed key r.
Proof.
  intros Hpc key r. rewrite pcGet_accumulate.
  destruct (String.eqb_spec (pathToKey (convPath c)) key) as [Hk|Hk]; [|apply Hpc].
  intros [= <-].
  destruct (pcGet pc key) as [old|] eqn:E.
  - destruct (Hpc key old E) as [H1 [_ [H3 H4]]]. now apply bump_wellFormed.
  - apply bump_wellFormed; cbn; [now symmetry | constructor | tauto].
Qed.

Lemma fold_accumulate_wellFormed (cs : list Conversion) :
  forall pc,
    (forall key r, pcGet pc key = Some r -> rowWellFormed key r) ->
    forall key r, pcGet (fold_left accumulate cs pc) key = Some r -> rowWellFormed key r.
Proof.
  induction cs as [|c cs IH]; intros pc Hpc; cbn [fold_left]; [assumption|].
  apply IH. now apply accumulate_wellFormed.
Qed.

Lemma fold_accumulate_origin (cs : list Conversion) :
  forall pc key r,
    pcGet (fold_left accumulate cs pc) key = Some r ->
    (exists r0, pcGet pc key = Some r0 /\ path r0 = path r)
    \/ (exists c, In c cs /\ convPath c = path r).
Proof.
  induction cs as [|c cs IH]; intros pc key r; cbn [fold_left].
  - intros H. left. now exists r.
  - intros H. destruct (IH _ _ _ H) as [[r0 [Hg Hp]]|[c' [Hin Hp]]].
    + rewrite pcGet_accumulate in Hg.
      destruct (pathToKey (convPath c) =? key)%string.
      * injection Hg as <-. cbn [path bump] in Hp.
        destruct (pcGet pc key) as [old|].
        -- left. now exists old.
        -- right. exists c. split; [now left | exact Hp].
      * left. now exists r0.
    + right. exists c'. split; [now right | exact Hp].
Qed.

(** X15: in the table [aggregate] builds, every key occurs once, and the
    row filed under a key holds the path of one of the conversions fed in,
    whose [pathToKey] is that key, a conversions count of at least 1, and a
    duplicate-free set of non-empty currencies. *)
Theorem aggregate_rows (cs : list Conversion) (key : string) (row : PathRow) :
  In (key, row) (aggregate cs) ->
  NoDup (map fst (aggregate cs))
  /\ pcGet (aggregate cs) key = Some row
  /\ key = pathToKey (path row)
  /\ (exists c, In c cs /\ convPath c = path row)
  /\ (1 <= conversions row)%nat
  /\ NoDup (currencies row)
  /\ (forall cur, In cur (currencies row) -> cur <> EmptyString).
Proof.
  intros Hin.
  pose proof (aggregate_keys_NoDup cs) as N.
  apply (pcGet_In _ _ _ N) in Hin.
  split; [assumption|]. split; [assumption|].
  destruct (fold_accumulate_wellFormed cs [] ltac:(discriminate) key row Hin)
    as [H1 [H2 [H3 H4]]].
  destruct (fold_accumulate_origin cs [] key row Hin) as [[r0 [Hg _]]|Ho];
    [discriminate|].
  repeat split; assumption.
Qed.

Lemma aggregate_rows_witness :
  let a := mkConversion ["ORGANIC_SEARCH"; "DIRECT_TRAFFIC"] 1200%float (Some "USD") in
  let b := mkConversion ["PAID_SEARCH"] 250.5%float None in
  let c := mkConversion ["ORGANIC_SEARCH"; "DIRECT_TRAFFIC"] 99.75%float (Some "EUR") in
  let key := "ORGANIC_SEARCH>DIRECT_TRAFFIC" in
  let row := mkRow ["ORGANIC_SEARCH"; "DIRECT_TRAFFIC"] 2 1299.75%float ["USD"; "EUR"] in
  NoDup (map fst (aggregate [a; b; c]))
  /\ pcGet (aggregate [a; b; c]) key = Some row
  /\ key = pathToKey (path row)
  /\ (exists x, In x [a; b; c] /\ convPath x = path row)
  /\ (1 <= conversions row)%nat
  /\ NoDup (currencies row)
  /\ (forall cur, In cur (currencies row) -> cur <> EmptyString).
Proof.
  cbv zeta. apply aggregate_rows. vm_compute. left. reflexivity.
Defined.

Lemma sumConversions_app (a b : PathCounts) :
  sumConversions (a ++ b) = (sumConversions a + sumConversions b)%nat.
Proof.
  induction a as [|[k r] a IH]; cbn; [reflexivity | lia].
Qed.

Lemma sumConversions_bump (pc : PathCounts) (key : string) (c : Conversion) (r : PathRow) :
  pcGet pc key = Some r ->
  sumConversions (pcUpdate key (bump c) pc) = S (sumConversions pc).
Proof.
  induction pc as [|[k r0] pc IH]; cbn; [discriminate|].
  destruct (k =? key)%string; cbn.
  - intros _. lia.
  - intros H. rewrite (IH H). lia.
Qed.

Lemma sumConversions_accumulate (pc : PathCounts) (c : Conversion) :
  sumConversions (accumulate pc c) = S (sumConversions pc).
Proof.
  unfold accumulate.
  destruct (pcGet pc (pathToKey (convPath c))) as [r|] eqn:E.
  - now apply sumConversions_bump with (r := r).
  - rewrite sumConversions_bump with (r := mkRow (convPath c) 0 0%float []).
    + rewrite sumConversions_app. cbn. lia.
    + rewrite pcGet_app, E, String.eqb_refl. reflexivity.
Qed.

Lemma sumConversions_aggregate (cs : list Conversion) :
  sumConversions (aggregate cs) = List.length cs.
Proof.
  unfold aggregate.
  assert (forall pc, sumConversions (fold_left accumulate cs pc)
                     = (sumConversions pc + List.length cs)%nat) as H.
  { induction cs as [|c cs IH]; intros pc; cbn [fold_left List.length]; [lia|].
    rewrite IH, sumConversions_accumulate. lia. }
  now rewrite H.
Qed.

(** ** The job of [/api/mcf/refresh] *)

Lemma runMcf_fold (startTime endTime : Z) (contacts : list McfContact) :
  forall run,
    fold_left (mcfStep startTime endTime) contacts run =
    mkMcfRun
      (fold_left accumulate (conversionsFed startTime endTime contacts) (runPathCounts run))
      (runTotalConversions run + countIf (converts startTime endTime) contacts)
      (runProcessed run + List.length contacts).
Proof.
  unfold countIf.
  induction contacts as [|c contacts IH]; intros [pc total done]; cbn [fold_left].
  - cbn. f_equal; lia.
  - rewrite IH. unfold mcfStep. cbn [conversionsFed filter].
    unfold converts at 2.
    destruct (mcfConversion c) as [conv|]; cbn [List.length runPathCounts
      runTotalConversions runProcessed].
    + destruct (outsideWindow startTime endTime conv);
        cbn [negb fold_left List.length runPathCounts runTotalConversions runProcessed];
        f_equal; lia.
    + f_equal; lia.
Qed.

(** X16: when the MCF job has gone through its contacts,
    [totalConversions] is the number of contacts with a conversion inside
    the date window, it equals the sum of [conversions] over all rows of
    [pathCounts], and [processed] is the number of contacts scanned; the
    table is the aggregation of the paths built with the 90-day lookback
    for exactly those contacts. *)
Theorem runMcf_totals (startTime endTime : Z) (contacts : list McfContact) :
  runProcessed (runMcf startTime endTime contacts) = List.length contacts
  /\ runTotalConversions (runMcf startTime endTime contacts)
     = countIf (converts startTime endTime) contacts
  /\ sumConversions (runPathCounts (runMcf startTime endTime contacts))
     = runTotalConversions (runMcf startTime endTime contacts)
  /\ runPathCounts (runMcf startTime endTime contacts)
     = aggregate (conversionsFed startTime endTime contacts)
  /\ (runTotalConversions (runMcf startTime endTime contacts)
      <= runProcessed (runMcf startTime endTime contacts))%nat.
Proof.
  unfold runMcf. rewrite runMcf_fold.
  cbn [runProcessed runTotalConversions runPathCounts Nat.add].
  fold (aggregate (conversionsFed startTime endTime contacts)).
  rewrite sumConversions_aggregate.
  assert (List.length (conversionsFed startTime endTime contacts)
          = countIf (converts startTime endTime) contacts) as E.
  { unfold countIf. induction contacts as [|c contacts IH]; [reflexivity|].
    cbn [conversionsFed filter]. unfold converts at 1.
    destruct (mcfConversion c) as [conv|]; [|exact IH].
    destruct (outsideWindow startTime endTime conv); cbn; [exact IH | now rewrite IH]. }
  repeat split; try assumption.
  unfold countIf. apply filter_length_le.
Qed.

(** ** The ranked report *)

Lemma rankedAfter_order (a b : PathRow) :
  (rankedAfter a b = true -> (conversions a <= conversions b)%nat)
  /\ (rankedAfter a b = false -> (conversions b <= conversions a)%nat).
Proof.
  unfold rankedAfter.
  destruct (Nat.eqb_spec (conversions b) (conversions a)) as [E|E]; [lia|].
  destruct (Nat.ltb_spec (conversions a) (conversions b)); split; intros; try lia;
    discriminate.
Qed.

Lemma insertSorted_ranked (x : PathRow) (l : list PathRow) :
  StronglySorted (fun a b => (conversions b <= conversions a)%nat) l ->
  StronglySorted (fun a b => (conversions b <= conversions a)%nat)
                 (JS.insertSorted rankedAfter x l).
Proof.
  induction 1 as [|y l Hl IH Hy]; cbn.
  - repeat constructor.
  - destruct (rankedAfter x y) eqn:E.
    + apply rankedAfter_order in E.
      constructor; [exact IH|].
      rewrite Forall_forall in *. intros z Hz.
      apply (Permutation_in _ (insertSorted_perm rankedAfter x l)) in Hz.
      destruct Hz as [<-|Hz]; [assumption | now apply Hy].
    + apply rankedAfter_order in E.
      constructor; [now constructor|].
      constructor; [assumption|].
      rewrite Forall_forall in *. intros z Hz. specialize (Hy z Hz). lia.
Qed.

Lemma sort_ranked (l : list PathRow) :
  StronglySorted (fun a b => (conversions b <= conversions a)%nat)
                 (JS.sort rankedAfter l).
Proof.
  unfold JS.sort. induction l as [|x l IH]; cbn; [constructor|].
  now apply insertSorted_ranked.
Qed.

(** X17: the ranked output lists exactly the qualifying rows of the table,
    each once, in non-increasing order of conversions. *)
Theorem topPaths_ranked
    (pathCounts : PathCounts) (totalConversions : nat) (thresholdPct : float) :
  byConversionsDescending (topPaths pathCounts totalConversions thresholdPct)
  /\ Permutation
       (topPaths pathCounts totalConversions thresholdPct)
       (map toSummary
            (filter (qualifies (threshNum totalConversions thresholdPct))
                    (map snd pathCounts))).
Proof.
  unfold topPaths, byConversionsDescending. split.
  - pose proof (sort_ranked
                  (filter (qualifies (threshNum totalConversions thresholdPct))
                          (map snd pathCounts))) as H.
    induction H as [|y l Hl IH Hy]; cbn; constructor; [exact IH|].
    rewrite Forall_forall in *. intros s Hs.
    apply in_map_iff in Hs. destruct Hs as [z [<- Hz]]. cbn. now apply Hy.
  - apply Permutation_map, sort_perm.
Qed.

Lemma allCurrencies_fold (top : list PathSummary) :
  forall acc,
    NoDup acc ->
    NoDup (fold_left (fun acc p => fold_left JS.add (summaryCurrencies p) acc) top acc)
    /\ forall c,
        In c (fold_left (fun acc p => fold_left JS.add (summaryCurrencies p) acc) top acc)
        <-> In c acc \/ exists p, In p top /\ In c (summaryCurrencies p).
Proof.
  induction top as [|p top IH]; intros acc N; cbn [fold_left].
  - split; [assumption|]. intros c. split; [now left | intros [H|[p [[] _]]]; assumption].
  - destruct (IH (fold_left JS.add (summaryCurrencies p) acc)
                 (fold_add_NoDup _ _ N)) as [H1 H2].
    split; [assumption|]. intros c. rewrite H2, fold_add_In. split.
    + intros [[H|H]|[q [Hq Hc]]]; [now left | right; exists p | right; exists q];
        cbn; tauto.
    + intros [H|[q [[<-|Hq] Hc]]]; [tauto | tauto | right; exists q; tauto].
Qed.

Lemma NoDup_two {A : Type} (l : list A) :
  NoDup l ->
  ((1 < List.length l)%nat <-> exists a b, In a l /\ In b l /\ a <> b).
Proof.
  intros N. split.
  - destruct l as [|a [|b l]]; cbn; try lia. intros _.
    exists a, b. inversion N as [|? ? Ha _]; subst.
    repeat split; cbn; try tauto. intros ->. apply Ha. now left.
  - intros [a [b [Ha [Hb Hne]]]].
    destruct l as [|x [|y l]]; cbn in *; try lia; try tauto.
    destruct Ha as [<-|[]], Hb as [<-|[]]. contradiction.
Qed.

(** X18: the report's currency list holds a currency iff one of the
    ranked paths carries it, never twice; [mixedCurrencies] is set iff the
    ranked paths carry two different currencies.  Currencies of paths
    below the threshold do not count. *)
Theorem report_currencies (top : list PathSummary) (c : string) :
  NoDup (allCurrencies top)
  /\ (In c (allCurrencies top) <-> exists p, In p top /\ In c (summaryCurrencies p))
  /\ (mixedCurrencies top = true <->
      exists p q a b,
        In p top /\ In q top
        /\ In a (summaryCurrencies p) /\ In b (summaryCurrencies q) /\ a <> b).
Proof.
  unfold mixedCurrencies, allCurrencies.
  destruct (allCurrencies_fold top [] (NoDup_nil _)) as [N Hin].
  split; [assumption|]. split.
  - rewrite Hin. cbn. tauto.
  - rewrite Nat.ltb_lt, (NoDup_two _ N). split.
    + intros [a [b [Ha [Hb Hne]]]].
      apply Hin in Ha, Hb.
      destruct Ha as [[]|[p [Hp Ha]]], Hb as [[]|[q [Hq Hb]]].
      exists p, q, a, b. tauto.
    + intros [p [q [a [b [Hp [Hq [Ha [Hb Hne]]]]]]]].
      exists a, b. split; [|split; [|assumption]]; apply Hin; right;
        [exists p | exists q]; tauto.
Qed.

(** ** More on computeMarketingContribution *)

Lemma countIf_le {A : Type} (f g : A -> bool) (l : list A) :
  (forall x, In x l -> f x = true -> g x = true) ->
  (countIf f l <= countIf g l)%nat.
Proof.
  unfold countIf. induction l as [|x l IH]; intros H; cbn; [lia|].
  assert (List.length (filter f l) <= List.length (filter g l))%nat as Hl
      by (apply IH; intros y Hy; apply H; now right).
  destruct (f x) eqn:Ef.
  - rewrite (H x (or_introl eq_refl) Ef). cbn. lia.
  - destruct (g x); cbn; lia.
Qed.

(** X19: the marketing count never exceeds the total count, which never
    exceeds the number of entries; a larger marketing set never lowers the
    marketing count and leaves the total count as it is. *)
Theorem computeMarketingContribution_bounds
    (historyEntries : list HistoryEntry) (sources sources' : list string) :
  (forall s, In s sources -> In s sources') ->
  (marketingChanges (computeMarketingContribution historyEntries sources)
   <= totalChanges (computeMarketingContribution historyEntries sources)
   <= List.length historyEntries)%nat
  /\ (marketingChanges (computeMarketingContribution historyEntries sources)
      <= marketingChanges (computeMarketingContribution historyEntries sources'))%nat
  /\ totalChanges (computeMarketingContribution historyEntries sources)
     = totalChanges (computeMarketingContribution historyEntries sources').
Proof.
  intros Hsub. rewrite !computeMarketingContribution_counts.
  cbn [marketingChanges totalChanges contributionOf].
  split; [split|split].
  - apply countIf_le. intros e _ H. unfold countsAsMarketing in H.
    now apply andb_true_iff in H.
  - unfold countIf. apply filter_length_le.
  - apply countIf_le. intros e _ H. unfold countsAsMarketing in *.
    apply andb_true_iff in H. destruct H as [H1 H2].
    rewrite H1. apply has_true in H2. cbn. now apply has_true, Hsub.
  - reflexivity.
Qed.

Lemma computeMarketingContribution_bounds_witness :
  let h := [entry 1 "REFERRALS"; entry 2 "OFFLINE"; entry 3 "DIRECT_TRAFFIC";
            mkEntry (Some 4) None] in
  (marketingChanges (computeMarketingContribution h ["REFERRALS"])
   <= totalChanges (computeMarketingContribution h ["REFERRALS"])
   <= List.length h)%nat
  /\ (marketingChanges (computeMarketingContribution h ["REFERRALS"])
      <= marketingChanges (computeMarketingContribution h ["REFERRALS"; "DIRECT_TRAFFIC"]))%nat
  /\ totalChanges (computeMarketingContribution h ["REFERRALS"])
     = totalChanges (computeMarketingContribution h ["REFERRALS"; "DIRECT_TRAFFIC"]).
Proof.
  cbv zeta. apply computeMarketingContribution_bounds.
  intros s [<-|[]]. cbn. tauto.
Defined.

(** ** More on getClosedWonStageIds *)

Lemma cacheGet_set (cache : PipelineCache) (portal key : string) (v : CacheEntry) :
  cacheGet (cacheSet cache portal v) key =
  if (portal =? key)%string then Some v else cacheGet cache key.
Proof.
  unfold cacheSet. cbn [cacheGet].
  destruct (String.eqb_spec portal key) as [->|Hne]; [reflexivity|].
  induction cache as [|[k e] cache IH]; cbn; [reflexivity|].
  destruct (String.eqb_spec k portal) as [->|Hk]; cbn.
  - destruct (String.eqb_spec portal key); [contradiction | exact IH].
  - destruct (k =? key)%string; [reflexivity | exact IH].
Qed.

Lemma collectStageIds_NoDup (data : PipelinesResponse) : NoDup (collectStageIds data).
Proof.
  unfold collectStageIds.
  assert (forall l ids, NoDup ids -> NoDup (fold_left addStage l ids)) as Hs.
  { induction l as [|st l IH]; intros ids N; cbn [fold_left]; [assumption|].
    apply IH. unfold addStage. destruct (closedWonTest st); [now apply add_NoDup | assumption]. }
  assert (forall ps ids, NoDup ids -> NoDup (fold_left addPipeline ps ids)) as Hp.
  { induction ps as [|p ps IH]; intros ids N; cbn [fold_left]; [assumption|].
    apply IH. unfold addPipeline. now apply Hs. }
  apply Hp. constructor.
Qed.

(** X20: a set of stage ids fetched by [getClosedWonStageIds] holds no id
    twice and is served again, unchanged and without regard to what a
    request would return, for the next hour; other portals' cache entries
    are not touched.  A failed fetch yields the empty set and caches
    nothing. *)
Theorem getClosedWonStageIds_cache
    (cache : PipelineCache) (now fetchedTime later later' : Z) (key : string)
    (data : PipelinesResponse) (response : option PipelinesResponse) :
  (forall entry, cacheGet cache key = Some entry -> 3600000 <= now - fetchedAt entry) ->
  later - fetchedTime < 3600000 ->
  NoDup (fst (getClosedWonStageIds cache now fetchedTime key (Some data)))
  /\ getClosedWonStageIds
       (snd (getClosedWonStageIds cache now fetchedTime key (Some data)))
       later later' key response
     = getClosedWonStageIds cache now fetchedTime key (Some data)
  /\ (forall other, other <> key ->
        cacheGet (snd (getClosedWonStageIds cache now fetchedTime key (Some data))) other
        = cacheGet cache other)
  /\ getClosedWonStageIds cache now fetchedTime key None = ([], cache).
Proof.
  intros Hstale Hfresh.
  assert (forall resp,
             getClosedWonStageIds cache now fetchedTime key resp =
             match resp with
             | Some d => (collectStageIds d,
                          cacheSet cache key (mkCacheEntry (collectStageIds d) fetchedTime))
             | None => ([], cache)
             end) as Hfetch.
  { intros resp. unfold getClosedWonStageIds.
    destruct (cacheGet cache key) as [entry|] eqn:Ec; [|reflexivity].
    specialize (Hstale entry eq_refl). apply Z.ltb_ge in Hstale. now rewrite Hstale. }
  rewrite !Hfetch. cbn [fst snd].
  split; [apply collectStageIds_NoDup|]. split; [|split; [|reflexivity]].
  - apply getClosedWonStageIds_cached with
      (entry := mkCacheEntry (collectStageIds data) fetchedTime).
    + now rewrite cacheGet_set, String.eqb_refl.
    + exact Hfresh.
  - intros other Hne. rewrite cacheGet_set.
    destruct (String.eqb_spec key other); [congruence | reflexivity].
Qed.

Lemma getClosedWonStageIds_cache_witness :
  let data :=
    mkResponse (Some [mkPipeline (Some
      [ mkStage "closedwon" (Some (mkMeta (Some "true") (Some 1%float)));
        mkStage "closedlost" (Some (mkMeta (Some "true") (Some 0%float))) ])]) in
  NoDup (fst (getClosedWonStageIds [] 1000 1200 "portal" (Some data)))
  /\ getClosedWonStageIds
       (snd (getClosedWonStageIds [] 1000 1200 "portal" (Some data)))
       3000000 3000100 "portal" None
     = getClosedWonStageIds [] 1000 1200 "portal" (Some data)
  /\ (forall other, other <> "portal" ->
        cacheGet (snd (getClosedWonStageIds [] 1000 1200 "portal" (Some data))) other
        = cacheGet [] other)
  /\ getClosedWonStageIds [] 1000 1200 "portal" None = ([], []).
Proof.
  cbv zeta. apply getClosedWonStageIds_cache.
  - cbn. intros entry H. discriminate H.
  - lia.
Defined.

(** ** More on buildConversionPath *)

Lemma pathToKey_not_empty (x : string) (l : list string) :
  x <> EmptyString -> pathToKey (x :: l) <> EmptyString.
Proof.
  intros Hx. destruct l as [|y l].
  - exact Hx.
  - rewrite pathToKey_cons2. destruct x; [contradiction | discriminate].
Qed.

(** X21: a path built by [buildConversionPath] is never empty and none of
    its tokens is the empty string, so its aggregation key is not empty
    either. *)
Theorem buildConversionPath_not_empty
    (S : list HistoryEntry) (t : Z) (lookbackDays : option Z) (token : string) :
  buildConversionPath S t lookbackDays <> []
  /\ (In token (buildConversionPath S t lookbackDays) -> token <> EmptyString)
  /\ pathToKey (buildConversionPath S t lookbackDays) <> EmptyString.
Proof.
  assert (forall x, In x (buildConversionPath S t lookbackDays) -> x <> EmptyString) as Htok.
  { intros x. rewrite buildConversionPath_contributing.
    destruct (contributingEntries S t lookbackDays) as [|c cs] eqn:Ec.
    - intros [<-|[]]. discriminate.
    - rewrite collapse_dedup, dedupAdjacent_In, in_map_iff.
      intros [e [<- Hin]]. rewrite <- Ec in Hin.
      apply contributingEntries_In in Hin. tauto. }
  assert (buildConversionPath S t lookbackDays <> []) as Hne.
  { rewrite buildConversionPath_contributing.
    destruct (contributingEntries S t lookbackDays) as [|c cs]; [discriminate|].
    apply collapse_cons_not_nil. }
  split; [assumption|]. split; [apply Htok|].
  destruct (buildConversionPath S t lookbackDays) as [|x l]; [contradiction|].
  apply pathToKey_not_empty. apply Htok. now left.
Qed.

Lemma upperChar_idempotent (c : ascii) : JS.upperChar (JS.upperChar c) = JS.upperChar c.
Proof.
  destruct c as [[] [] [] [] [] [] [] []]; reflexivity.
Qed.

Lemma isWhiteSpace_upperChar (c : ascii) :
  JS.isWhiteSpace (JS.upperChar c) = JS.isWhiteSpace c.
Proof.
  destruct c as [[] [] [] [] [] [] [] []]; reflexivity.
Qed.

Lemma toUpperCase_idempotent (s : string) :
  JS.toUpperCase (JS.toUpperCase s) = JS.toUpperCase s.
Proof.
  induction s as [|c s IH]; cbn; [reflexivity|].
  now rewrite upperChar_idempotent, IH.
Qed.

Lemma trimStart_toUpperCase (s : string) :
  JS.trimStart (JS.toUpperCase s) = JS.toUpperCase (JS.trimStart s).
Proof.
  induction s as [|c s IH]; cbn; [reflexivity|].
  rewrite isWhiteSpace_upperChar. destruct (JS.isWhiteSpace c); [exact IH | reflexivity].
Qed.

Lemma trimEnd_toUpperCase (s : string) :
  JS.trimEnd (JS.toUpperCase s) = JS.toUpperCase (JS.trimEnd s).
Proof.
  induction s as [|c s IH]; cbn; [reflexivity|].
  rewrite IH, isWhiteSpace_upperChar.
  destruct (JS.trimEnd s) as [|d r]; cbn; [|reflexivity].
  now destruct (JS.isWhiteSpace c).
Qed.

Lemma stepOf_upperEntry (e : HistoryEntry) : stepOf (upperEntry e) = stepOf e.
Proof.
  unfold stepOf, upperEntry, JS.trim. cbn [value].
  destruct (value e) as [v|]; cbn [option_map]; [|reflexivity].
  now rewrite trimStart_toUpperCase, trimEnd_toUpperCase, toUpperCase_idempotent.
Qed.

Lemma insertSorted_map {A : Type} (gt : A -> A -> bool) (f : A -> A) (x : A) (l : list A) :
  (forall a b, gt (f a) (f b) = gt a b) ->
  JS.insertSorted gt (f x) (map f l) = map f (JS.insertSorted gt x l).
Proof.
  intros H. induction l as [|y l IH]; cbn; [reflexivity|].
  rewrite H. destruct (gt x y); cbn; [now rewrite IH | reflexivity].
Qed.

Lemma sort_map {A : Type} (gt : A -> A -> bool) (f : A -> A) (l : list A) :
  (forall a b, gt (f a) (f b) = gt a b) ->
  JS.sort gt (map f l) = map f (JS.sort gt l).
Proof.
  intros H. unfold JS.sort. induction l as [|x l IH]; cbn; [reflexivity|].
  now rewrite IH, insertSorted_map.
Qed.

Lemma filter_map_comm {A : Type} (p : A -> bool) (f : A -> A) (l : list A) :
  (forall a, p (f a) = p a) -> filter p (map f l) = map f (filter p l).
Proof.
  intros H. induction l as [|x l IH]; cbn; [reflexivity|].
  rewrite H. destruct (p x); cbn; now rewrite IH.
Qed.

(** X22: [buildConversionPath] is insensitive to the letter case of the
    history values: putting every value in upper case beforehand changes
    nothing in the path. *)
Theorem buildConversionPath_case_insensitive
    (S : list HistoryEntry) (t : Z) (lookbackDays : option Z) :
  buildConversionPath (map upperEntry S) t lookbackDays
  = buildConversionPath S t lookbackDays.
Proof.
  assert (windowEntries (map upperEntry S) t lookbackDays
          = map upperEntry (windowEntries S t lookbackDays)) as E.
  { unfold windowEntries, sortByTimestamp.
    rewrite filter_map_comm by reflexivity.
    now rewrite sort_map by reflexivity. }
  assert (forall l, rawPath (map upperEntry l) = rawPath l) as R.
  { intros l. unfold rawPath. rewrite map_map. f_equal.
    apply map_ext. apply stepOf_upperEntry. }
  unfold buildConversionPath. rewrite E.
  destruct (windowEntries S t lookbackDays) as [|e es]; [reflexivity|].
  cbn [map].
  change (upperEntry e :: map upperEntry es) with (map upperEntry (e :: es)).
  now rewrite R.
Qed.

(** ** The full-journey copy of [test-mcf.js] *)

Lemma journeyEntries_In (S : list HistoryEntry) (t : Z) (e : HistoryEntry) :
  In e (FullJourney.journeyEntries S t) <-> In e S /\ 0 < tsNumber e <= t.
Proof.
  unfold FullJourney.journeyEntries, sortByTimestamp.
  rewrite sort_In, filter_In. unfold FullJourney.inJourney.
  rewrite andb_true_iff, Z.ltb_lt, Z.leb_le. tauto.
Qed.

Lemma rawPath_In (l : list HistoryEntry) (x : string) :
  In x (rawPath l) <-> exists e, In e l /\ stepOf e = x /\ x <> EmptyString.
Proof.
  unfold rawPath. rewrite filter_In, in_map_iff, truthy_true. split.
  - intros [[e [He Hin]] Hx]. exists e. tauto.
  - intros [e [Hin [He Hx]]]. split; [exists e; tauto | assumption].
Qed.

(** X23: the two-argument [buildConversionPath] of the second test suite
    returns a path without adjacent equal tokens.  When no entry with
    [0 < timestamp <= conversionTimestamp] has a non-empty value the path
    is the sentinel; when there is one, the path's tokens are exactly the
    non-empty normalized values of the entries with
    [0 < timestamp <= conversionTimestamp], however far back they lie. *)
Theorem full_journey_tokens (S : list HistoryEntry) (t : Z) :
  NoAdjacentEqual (FullJourney.buildConversionPath S t)
  /\ ((FullJourney.buildConversionPath S t = ["UNKNOWN"]
       /\ forall e, In e S -> 0 < tsNumber e <= t -> stepOf e = EmptyString)
      \/ ((exists e, In e S /\ 0 < tsNumber e <= t /\ stepOf e <> EmptyString)
          /\ forall token,
               In token (FullJourney.buildConversionPath S t) <->
               exists e, In e S /\ 0 < tsNumber e <= t
                         /\ stepOf e = token /\ token <> EmptyString)).
Proof.
  unfold FullJourney.buildConversionPath.
  assert (forall x, In x (rawPath (FullJourney.journeyEntries S t)) <->
                    exists e, In e S /\ 0 < tsNumber e <= t
                              /\ stepOf e = x /\ x <> EmptyString) as Hraw.
  { intros x. rewrite rawPath_In. split; intros [e [H1 H2]]; exists e.
    - apply journeyEntries_In in H1. tauto.
    - split; [apply journeyEntries_In|]; tauto. }
  assert (rawPath (FullJourney.journeyEntries S t) = [] ->
          forall e, In e S -> 0 < tsNumber e <= t -> stepOf e = EmptyString) as Hnone.
  { intros E e Hin Hts.
    destruct (String.eqb_spec (stepOf e) EmptyString) as [|Hne]; [assumption|].
    assert (In (stepOf e) (rawPath (FullJourney.journeyEntries S t))) as Hx
        by (apply Hraw; exists e; tauto).
    rewrite E in Hx. destruct Hx. }
  destruct (FullJourney.journeyEntries S t) as [|e0 es] eqn:Ej.
  - split; [constructor|]. left. split; [reflexivity|]. now apply Hnone.
  - destruct (rawPath (e0 :: es)) as [|x xs] eqn:Er.
    + split; [constructor|]. left. split; [reflexivity|]. now apply Hnone.
    + destruct (collapse (x :: xs)) as [|p ps] eqn:Ec;
        [now apply collapse_cons_not_nil in Ec|].
      rewrite <- Ec. split; [apply collapse_ok|]. right. split.
      * destruct (proj1 (Hraw x) (or_introl eq_refl)) as [e [H1 [H2 [H3 H4]]]].
        exists e. subst x. tauto.
      * intros token. rewrite collapse_dedup, dedupAdjacent_In. apply Hraw.
Qed.

(** X24: the full-journey copy and the function of [server.js] return the
    same path whenever, among the entries not later than the conversion,
    the ones with a positive timestamp are the ones inside the lookback
    window. *)
Theorem full_journey_agrees
    (S : list HistoryEntry) (t : Z) (lookbackDays : option Z) :
  (forall e, In e S -> tsNumber e <= t ->
             (0 < tsNumber e <-> t - lookbackMs lookbackDays <= tsNumber e)) ->
  FullJourney.buildConversionPath S t = buildConversionPath S t lookbackDays.
Proof.
  intros H.
  assert (FullJourney.journeyEntries S t = windowEntries S t lookbackDays) as E.
  { unfold FullJourney.journeyEntries, windowEntries. f_equal.
    apply filter_ext_in. intros e Hin.
    unfold FullJourney.inJourney, inWindow, windowStart.
    specialize (H e Hin).
    destruct (Z.leb_spec (tsNumber e) t) as [Hle|Hgt]; [|now rewrite !andb_false_r].
    rewrite !andb_true_r. specialize (H Hle).
    destruct (Z.ltb_spec 0 (tsNumber e)), (Z.leb_spec (t - lookbackMs lookbackDays) (tsNumber e));
      try reflexivity; exfalso; lia. }
  unfold FullJourney.buildConversionPath, buildConversionPath. now rewrite E.
Qed.

Lemma full_journey_agrees_witness :
  FullJourney.buildConversionPath
    [entry 1699000000000 "PAID_SEARCH"; entry 1699500000000 "DIRECT_TRAFFIC";
     entry 1700000000001 "EMAIL_MARKETING"]
    1700000000000
  = buildConversionPath
      [entry 1699000000000 "PAID_SEARCH"; entry 1699500000000 "DIRECT_TRAFFIC";
       entry 1700000000001 "EMAIL_MARKETING"]
      1700000000000 (Some 90).
Proof.
  apply full_journey_agrees.
  intros e [<-|[<-|[<-|[]]]]; cbn; lia.
Defined.

(** ** Runs without monetary value *)

Lemma fold_accumulate_no_value (cs : list Conversion) :
  (forall c, In c cs -> convValue c = 0%float /\ convCurrency c = None) ->
  forall pc,
    (forall key r, pcGet pc key = Some r -> totalValue r = 0%float /\ currencies r = []) ->
    forall key r,
      pcGet (fold_left accumulate cs pc) key = Some r ->
      totalValue r = 0%float /\ currencies r = [].
Proof.
  induction cs as [|c cs IH]; intros Hcs pc Hpc; cbn [fold_left]; [assumption|].
  apply IH; [intros c' Hc'; apply Hcs; now right|].
  intros key r. rewrite pcGet_accumulate.
  destruct (pathToKey (convPath c) =? key)%string; [|apply Hpc].
  intros [= <-]. destruct (Hcs c (or_introl eq_refl)) as [Hv Hc].
  unfold bump. cbn [totalValue currencies]. rewrite Hv, Hc.
  destruct (pcGet pc key) as [old|] eqn:E.
  - destruct (Hpc key old E) as [-> ->]. now split.
  - now split.
Qed.

(** X25: when no conversion of a run carries a value or a currency, as
    [getConversionTimestamp] has it for form submissions and meetings,
    every row of the path table has a total value of 0 and no currency,
    and the report is not flagged as mixing currencies. *)
Theorem runMcf_without_value
    (startTime endTime : Z) (contacts : list McfContact)
    (thresholdPct : float) (key : string) (row : PathRow) :
  (forall c conv, In c contacts -> mcfConversion c = Some conv ->
                  crValue conv = 0%float /\ crCurrency conv = None) ->
  In (key, row) (runPathCounts (runMcf startTime endTime contacts)) ->
  totalValue row = 0%float
  /\ currencies row = []
  /\ mixedCurrencies
       (topPaths (runPathCounts (runMcf startTime endTime contacts))
                 (runTotalConversions (runMcf startTime endTime contacts))
                 thresholdPct) = false.
Proof.
  intros Hc Hin.
  unfold runMcf in *. rewrite runMcf_fold in *.
  cbn [runPathCounts runTotalConversions] in *.
  fold (aggregate (conversionsFed startTime endTime contacts)) in *.
  assert (forall c, In c (conversionsFed startTime endTime contacts) ->
                    convValue c = 0%float /\ convCurrency c = None) as Hfed.
  { clear Hin. induction contacts as [|c0 contacts IH]; [intros c []|].
    cbn [conversionsFed].
    assert (forall c, In c (conversionsFed startTime endTime contacts) ->
                      convValue c = 0%float /\ convCurrency c = None) as IH'
        by (apply IH; intros c conv Hin; apply Hc; now right).
    destruct (mcfConversion c0) as [conv|] eqn:E; [|exact IH'].
    destruct (outsideWindow startTime endTime conv); [exact IH'|].
    intros c [<-|Hin]; [|now apply IH'].
    cbn. apply (Hc c0 conv); [now left | assumption]. }
  assert (forall k r, pcGet (aggregate (conversionsFed startTime endTime contacts)) k = Some r ->
                      totalValue r = 0%float /\ currencies r = []) as Hrows.
  { apply fold_accumulate_no_value; [assumption | discriminate]. }
  pose proof (aggregate_keys_NoDup (conversionsFed startTime endTime contacts)) as N.
  apply (pcGet_In _ _ _ N) in Hin.
  destruct (Hrows key row Hin) as [H1 H2].
  split; [assumption|]. split; [assumption|].
  unfold mixedCurrencies.
  destruct (allCurrencies_fold
              (topPaths (aggregate (conversionsFed startTime endTime contacts))
                        (0 + countIf (converts startTime endTime) contacts) thresholdPct)
              [] (NoDup_nil _)) as [_ Hall].
  fold (allCurrencies
          (topPaths (aggregate (conversionsFed startTime endTime contacts))
                    (0 + countIf (converts startTime endTime) contacts) thresholdPct))
    in Hall.
  destruct (allCurrencies _) as [|cur rest]; [reflexivity|].
  exfalso. destruct (proj1 (Hall cur) (or_introl eq_refl)) as [[]|[p [Hp Ha]]].
  apply topPaths_In in Hp. destruct Hp as [r [Hr [_ <-]]].
  apply in_map_iff in Hr. destruct Hr as [[k r'] [<- Hr]].
  apply (pcGet_In _ _ _ N) in Hr. destruct (Hrows k r' Hr) as [_ Hcur].
  cbn in Ha. rewrite Hcur in Ha. destruct Ha.
Qed.

Lemma runMcf_without_value_witness :
  let contacts :=
    [ mkMcfContact (Some (mkConversionResult 1700000000000 0%float None false))
                   [entry 1699000000000 "PAID_SEARCH"];
      mkMcfContact None [entry 1699000000000 "OFFLINE"] ] in
  let row := mkRow ["PAID_SEARCH"] 1 0%float [] in
  totalValue row = 0%float
  /\ currencies row = []
  /\ mixedCurrencies
       (topPaths (runPathCounts (runMcf 1690000000000 1710000000000 contacts))
                 (runTotalConversions (runMcf 1690000000000 1710000000000 contacts))
                 10%float) = false.
Proof.
  cbv zeta.
  apply (runMcf_without_value 1690000000000 1710000000000 _ 10%float "PAID_SEARCH").
  - intros c conv [<-|[<-|[]]]; cbn; intros [= <-]; now split.
  - vm_compute. left. reflexivity.
Defined.

(** ** After a contribution job *)

(** X26: once a contribution job has completed, at an instant not before
    the last save of the marketing sources, the status endpoint reports
    the analysis as not allowed, from the finished job in memory as well
    as from the persisted result; a further POST is blocked iff the sources
    had been saved strictly before the completion, so a portal that never
    saved its sources is not blocked.  The marketing sources read as
    before. *)
Theorem completeJob_closes_gate
    (config : PortalConfig) (portalId : string) (completedAt : Z) (job : JobCounters) :
  (forall saved, updatedAt (entryOrEmpty config portalId) = Some saved ->
                 saved <= completedAt) ->
  statusAnalysisAllowed (Some false)
    (entryOrEmpty (completeJob config portalId completedAt job) portalId) = false
  /\ statusAnalysisAllowed None
       (entryOrEmpty (completeJob config portalId completedAt job) portalId) = false
  /\ (analysisBlocked (entryOrEmpty (completeJob config portalId completedAt job) portalId)
      = true <->
      exists saved, updatedAt (entryOrEmpty config portalId) = Some saved
                    /\ saved < completedAt)
  /\ getMarketingSources (completeJob config portalId completedAt job) portalId
     = getMarketingSources config portalId.
Proof.
  intros Hsaved. unfold completeJob, getMarketingSources.
  assert (forall v, entryOrEmpty (configSet config portalId v) portalId = v) as Hset.
  { intros v. unfold entryOrEmpty. now rewrite configGet_set, String.eqb_refl. }
  rewrite !Hset. unfold statusAnalysisAllowed, analysisAllowed, analysisBlocked.
  cbn [lastAnalysisRun updatedAt portalMarketingSources lastAnalysisResult].
  destruct (updatedAt (entryOrEmpty config portalId)) as [saved|].
  - specialize (Hsaved saved eq_refl).
    split; [apply Z.ltb_ge; assumption|].
    split; [apply Z.ltb_ge; assumption|]. split; [|reflexivity].
    rewrite Z.ltb_lt. split.
    + intros H. now exists saved.
    + intros [s [[= <-] H]]. assumption.
  - split; [reflexivity|]. split; [reflexivity|]. split; [|reflexivity].
    split; [discriminate | intros [s [[=] _]]].
Qed.

Lemma completeJob_closes_gate_witness :
  let config :=
    [("47955688", mkPortalEntry (Some ["PAID_SEARCH"]) (Some 1700000000000) None None)] in
  let config' := completeJob config "47955688" 1700000900000 (mkCounters 10 8 1 1) in
  statusAnalysisAllowed (Some false) (entryOrEmpty config' "47955688") = false
  /\ statusAnalysisAllowed None (entryOrEmpty config' "47955688") = false
  /\ (analysisBlocked (entryOrEmpty config' "47955688") = true <->
      exists saved, updatedAt (entryOrEmpty config "47955688") = Some saved
                    /\ saved < 1700000900000)
  /\ getMarketingSources config' "47955688" = getMarketingSources config "47955688".
Proof.
  cbv zeta. apply completeJob_closes_gate.
  cbn. intros saved [= <-]. lia.
Defined.

(** ** The cutoff *)

Lemma ltb_leb (x y : float) : PrimFloat.ltb x y = true -> PrimFloat.leb x y = true.
Proof.
  rewrite ltb_spec, leb_spec. unfold SFltb, SFleb.
  destruct (SFcompare (Prim2SF x) (Prim2SF y)) as [[]|]; intros H;
    first [reflexivity | discriminate H].
Qed.

(** X27: the cutoff [threshNum] is never below 1: it is at least 1, or it
    is NaN (when the threshold of the request is not a number, and then no
    path qualifies). *)
Theorem threshNum_at_least_one (totalConversions : nat) (thresholdPct : float) :
  PrimFloat.leb 1%float (threshNum totalConversions thresholdPct) = true
  \/ (JS.isNaN (threshNum totalConversions thresholdPct) = true
      /\ forall p, qualifies (threshNum totalConversions thresholdPct) p = false).
Proof.
  unfold threshNum, JS.Math_max.
  set (c := JS.Math_ceil _).
  destruct (JS.isNaN 1%float || JS.isNaN c)%bool eqn:En.
  - right. split; [reflexivity|].
    intros p. unfold qualifies. rewrite leb_spec. reflexivity.
  - left. destruct (PrimFloat.ltb 1%float c) eqn:El.
    + now apply ltb_leb.
    + reflexivity.
Qed.

(** ** First and last step of a path *)

Lemma dedupAdjacent_last (l : list string) (d : string) :
  last (dedupAdjacent l) d = last l d.
Proof.
  induction l as [|x l IH]; [reflexivity|].
  destruct l as [|y l]; [reflexivity|].
  change (dedupAdjacent (x :: y :: l))
    with (if (x =? y)%string then dedupAdjacent (y :: l)
          else x :: dedupAdjacent (y :: l)).
  change (last (x :: y :: l) d) with (last (y :: l) d).
  destruct (x =? y)%string; [exact IH|].
  destruct (dedupAdjacent_head l y) as [t Ht]. rewrite Ht in *.
  exact IH.
Qed.

Lemma dedupAdjacent_length (l : list string) :
  (List.length (dedupAdjacent l) <= List.length l)%nat.
Proof.
  induction l as [|x l IH]; [cbn; lia|].
  destruct l as [|y l]; [cbn; lia|].
  change (dedupAdjacent (x :: y :: l))
    with (if (x =? y)%string then dedupAdjacent (y :: l)
          else x :: dedupAdjacent (y :: l)).
  destruct (x =? y)%string; cbn [List.length] in *; lia.
Qed.

Lemma last_cons_default {A : Type} (l : list A) :
  forall x d d', last (x :: l) d = last (x :: l) d'.
Proof.
  induction l as [|a l IH]; intros x d d'; [reflexivity|].
  change (last (x :: a :: l) d) with (last (a :: l) d).
  change (last (x :: a :: l) d') with (last (a :: l) d').
  apply IH.
Qed.

Lemma last_map_stepOf (l : list HistoryEntry) :
  forall x d, last (map stepOf (x :: l)) d = stepOf (last (x :: l) x).
Proof.
  induction l as [|a l IH]; intros x d; [reflexivity|].
  change (last (map stepOf (x :: a :: l)) d) with (last (map stepOf (a :: l)) d).
  change (last (x :: a :: l) x) with (last (a :: l) x).
  rewrite IH. f_equal. apply last_cons_default.
Qed.

(** X28: when some entry contributes, the path starts with the step of
    the earliest contributing entry and ends with the step of the latest
    one, and it is no longer than the number of contributing entries. *)
Theorem buildConversionPath_first_last
    (S : list HistoryEntry) (t : Z) (lookbackDays : option Z)
    (first : HistoryEntry) (others : list HistoryEntry) :
  contributingEntries S t lookbackDays = first :: others ->
  hd EmptyString (buildConversionPath S t lookbackDays) = stepOf first
  /\ last (buildConversionPath S t lookbackDays) EmptyString
     = stepOf (last (first :: others) first)
  /\ (List.length (buildConversionPath S t lookbackDays)
      <= List.length (first :: others))%nat
  /\ inTimeOrder (first :: others).
Proof.
  intros E. rewrite buildConversionPath_contributing, E, collapse_dedup.
  split; [|split; [|split]].
  - cbn [map]. destruct (dedupAdjacent_head (map stepOf others) (stepOf first)) as [r ->].
    reflexivity.
  - rewrite dedupAdjacent_last. apply last_map_stepOf.
  - rewrite <- (length_map stepOf (first :: others)). apply dedupAdjacent_length.
  - rewrite <- E. unfold contributingEntries, inTimeOrder.
    pose proof (sortByTimestamp_inTimeOrder
                  (filter (inWindow t lookbackDays) S)) as Hs.
    unfold windowEntries. unfold inTimeOrder in Hs.
    induction Hs as [|y l Hl IH Hy]; cbn; [constructor|].
    destruct (JS.truthy (stepOf y)); [|exact IH].
    constructor; [exact IH|].
    rewrite Forall_forall in *. intros z Hz. apply filter_In in Hz. now apply Hy.
Qed.

Lemma buildConversionPath_first_last_witness :
  let a := entry 100 "organic_search" in
  let b := entry 200 "Organic_Search" in
  let c := entry 300 "DIRECT_TRAFFIC" in
  hd EmptyString (buildConversionPath [c; a; b] 400 (Some 90)) = stepOf a
  /\ last (buildConversionPath [c; a; b] 400 (Some 90)) EmptyString
     = stepOf (last [a; b; c] a)
  /\ (List.length (buildConversionPath [c; a; b] 400%Z (Some 90%Z))
      <= List.length [a; b; c])%nat
  /\ inTimeOrder [a; b; c].
Proof.
  cbv zeta.
  apply (buildConversionPath_first_last
           [entry 300 "DIRECT_TRAFFIC"; entry 100 "organic_search"; entry 200 "Organic_Search"]
           400 (Some 90)
           (entry 100 "organic_search")
           [entry 200 "Organic_Search"; entry 300 "DIRECT_TRAFFIC"]).
  vm_compute. reflexivity.
Defined.
